(** * Batch aggregation of credit-card transactions (batch_aggregation.py)

    A shallow embedding of the PySpark job [batch_aggregation.py]: the Spark
    SQL query of [aggregate_features], the dense-rank selection of
    [group_by_card_number], and the Python loops of [transform_row] and
    [write_to_feature_store], followed by the properties of the
    specification that concern them.  Two pieces of the notebooks around
    the job are embedded as well: the check of the feature group and the
    split into training and test rows.

    Conventions.
    - A nullable Spark column is an [option]; [LongType] and Python [int]
      are [Z]; [DoubleType] and Python [float] are the kernel's binary64
      floats, so sums and quotients round as they do on the JVM.
    - [TimestampType] is [Z], the number of microseconds since the epoch.
    - A DataFrame is the list of its rows.  Spark leaves the order of the
      rows of a DataFrame open; the embedding fixes one (partitions in the
      order of [remove_dups], rows of a partition in sort order, ties in
      input order).
    - The job runs on Spark 2.4 (the notebook's [framework_version]): an
      interval is a number of microseconds, and [/] yields NULL on a zero
      divisor.
    - The job is followed from the DataFrame that [spark.read.csv] returns
      on; what it logs plays no part. *)

From Stdlib Require Uint63.
From Stdlib Require Import PrimFloat.
From Stdlib Require Import ZArith QArith Qround Lqa.
From stdpp Require Import base decidable option list sorting numbers.
From stdpp Require Import strings pretty.

Local Open Scope Z_scope.

(** ** Spark SQL: expressions, sorting, window frames *)

Module SparkSQL.

Abbreviation double := PrimFloat.float.

(** [CAST(n AS DOUBLE)] of a long: the nearest double, for [n] of less
    than 63 bits (a count is). *)
Definition long_to_double (n : Z) : double :=
  if n <? 0
  then PrimFloat.opp (PrimFloat.of_uint63 (Uint63.of_Z (- n)))
  else PrimFloat.of_uint63 (Uint63.of_Z n).

(** The test [divisor == 0] of [Divide]: true on [0.0] and on [-0.0]. *)
Definition is_zero (y : double) : bool := PrimFloat.eqb y PrimFloat.zero.

(** [a / b] on doubles: NULL when an operand is NULL or the divisor is
    zero. *)
Definition divide (a b : option double) : option double :=
  match a, b with
  | Some x, Some y => if is_zero y then None else Some (PrimFloat.div x y)
  | _, _ => None
  end.

(** [COUNT( * )] over the rows of a frame. *)
Definition count_star {A} (frame : list A) : Z := Z.of_nat (length frame).

(** [AVG(e)]: the buffer [(sum, count)] starts at [(0.0, 0)]; a row adds
    [coalesce(e, 0.0)] to the sum and, when [e] is not NULL, one to the
    count; the result is [sum / count]. *)
Definition avg_update (buf : double * Z) (e : option double) : double * Z :=
  (PrimFloat.add buf.1 (default PrimFloat.zero e),
   if e is Some _ then buf.2 + 1 else buf.2).

Definition avg (es : list (option double)) : option double :=
  let buf := foldl avg_update (PrimFloat.zero, 0) es in
  divide (Some buf.1) (Some (long_to_double buf.2)).

(** [ORDER BY e ASC]: NULLS FIRST. *)
Definition asc (a b : option Z) : bool :=
  match a, b with
  | None, _ => true
  | Some _, None => false
  | Some x, Some y => x <=? y
  end.

(** [ORDER BY e DESC]: NULLS LAST. *)
Definition desc (a b : option Z) : bool := asc b a.

(** Sorting a partition: a stable insertion sort. *)
Fixpoint insert_by {A} (le : A → A → bool) (x : A) (l : list A) : list A :=
  match l with
  | [] => [x]
  | y :: l' => if le x y then x :: l else y :: insert_by le x l'
  end.

Definition sort_by {A} (le : A → A → bool) (l : list A) : list A :=
  foldr (insert_by le) [] l.

(** [PARTITION BY k]: the keys, and the rows of one key in input order.
    NULL keys make one partition. *)
Definition partition_keys {A} (key : A → option Z) (rows : list A)
  : list (option Z) := remove_dups (key <$> rows).

Definition partition_of {A} (key : A → option Z) (k : option Z)
    (rows : list A) : list A :=
  filter (λ r, key r = k) rows.

(** [RANGE INTERVAL delta PRECEDING], that is [BETWEEN delta PRECEDING AND
    CURRENT ROW], over an ascending timestamp: the frame of a row whose
    order value is [cur] holds the rows whose order value [o] satisfies
    [cur - delta <= o <= cur] in the NULLS FIRST order, where
    [NULL - delta] is NULL. *)
Definition in_frame (delta : Z) (cur o : option Z) : bool :=
  match cur, o with
  | None, None => true
  | Some t, Some u => (t - delta <=? u) && (u <=? t)
  | _, _ => false
  end.

Definition frame {A} (order : A → option Z) (delta : Z) (part : list A)
    (cur : A) : list A :=
  filter (λ r, in_frame delta (order cur) (order r)) part.

(** [dense_rank()] over a sorted partition: the first row has rank 1 and
    the rank grows by one whenever the order value changes. *)
Fixpoint dense_rank_from {A} (order : A → option Z) (prev : option Z)
    (rank : Z) (part : list A) : list (A * Z) :=
  match part with
  | [] => []
  | r :: part' =>
      let rank' := if decide (order r = prev) then rank else rank + 1 in
      (r, rank') :: dense_rank_from order (order r) rank' part'
  end.

Definition dense_rank {A} (order : A → option Z) (part : list A)
  : list (A * Z) :=
  match part with
  | [] => []
  | r :: part' => (r, 1) :: dense_rank_from order (order r) 1 part'
  end.

End SparkSQL.

Import SparkSQL.

(** ** The DataFrames of the job *)

(** [define_schema]: five nullable columns, read without a header. *)
Record Transaction := {
  tid : option string;
  datetime : option Z;
  cc_num : option Z;
  amount : option double;
  fraud_label : option string
}.

(** The inner SELECT of [aggregate_features] adds four window columns. *)
Record Windowed := {
  base : Transaction;
  num_trans_last_10m : Z;
  avg_amt_last_10m : option double;
  num_trans_last_1w : Z;
  avg_amt_last_1w : option double
}.

(** The outer SELECT adds three ratios. *)
Record Derived := {
  win : Windowed;
  amt_ratio1 : option double;
  amt_ratio2 : option double;
  count_ratio : option double
}.

Definition INTERVAL_10_MINUTE : Z := 10 * 60 * 1000000.
Definition INTERVAL_1_WEEK : Z := 7 * 24 * 60 * 60 * 1000000.

(** The windows [w1] and [w2]: [PARTITION BY cc_num ORDER BY datetime]. *)
Definition window_partition (k : option Z) (transactions_df : list Transaction)
  : list Transaction :=
  sort_by (λ a b, asc (datetime a) (datetime b))
          (partition_of cc_num k transactions_df).

Definition inner_select (part : list Transaction) (cur : Transaction)
  : Windowed :=
  let w1 := frame datetime INTERVAL_10_MINUTE part cur in
  let w2 := frame datetime INTERVAL_1_WEEK part cur in
  {| base := cur;
     num_trans_last_10m := count_star w1;
     avg_amt_last_10m := avg (amount <$> w1);
     num_trans_last_1w := count_star w2;
     avg_amt_last_1w := avg (amount <$> w2) |}.

Definition outer_select (w : Windowed) : Derived :=
  {| win := w;
     amt_ratio1 := divide (avg_amt_last_10m w) (avg_amt_last_1w w);
     amt_ratio2 := divide (amount (base w)) (avg_amt_last_1w w);
     count_ratio := divide (Some (long_to_double (num_trans_last_10m w)))
                           (Some (long_to_double (num_trans_last_1w w))) |}.

Definition aggregate_features (transactions_df : list Transaction)
  : list Derived :=
  k ← partition_keys cc_num transactions_df;
  let part := window_partition k transactions_df in
  (λ cur, outer_select (inner_select part cur)) <$> part.

(** [group_by_card_number]: rank the rows of each card by descending
    [datetime], keep rank 1, select three columns. *)
Record Sliced := {
  s_cc_num : option Z;
  s_num_trans_last_1w : Z;
  s_avg_amt_last_1w : option double
}.

Definition d_cc_num (d : Derived) : option Z := cc_num (base (win d)).
Definition d_datetime (d : Derived) : option Z := datetime (base (win d)).

Definition select_sliced (d : Derived) : Sliced :=
  {| s_cc_num := d_cc_num d;
     s_num_trans_last_1w := num_trans_last_1w (win d);
     s_avg_amt_last_1w := avg_amt_last_1w (win d) |}.

Definition sorted_df (k : option Z) (aggregated_features : list Derived)
  : list (Derived * Z) :=
  dense_rank d_datetime
    (sort_by (λ a b, desc (d_datetime a) (d_datetime b))
             (partition_of d_cc_num k aggregated_features)).

Definition grouped_df (aggregated_features : list Derived) : list Derived :=
  k ← partition_keys d_cc_num aggregated_features;
  fst <$> filter (λ rr, rr.2 = 1) (sorted_df k aggregated_features).

Definition group_by_card_number (aggregated_features : list Derived)
  : list Sliced :=
  select_sliced <$> grouped_df aggregated_features.

(** ** Python: values, exceptions, list objects *)

Module Python.

(** The values a feature dictionary can hold. *)
Inductive value :=
| PyNone
| PyInt (n : Z)
| PyFloat (x : double)
| PyStr (s : string).

Definition is_str (v : value) : bool :=
  match v with PyStr _ => true | _ => false end.

Inductive exn := TypeError | AssertionError.

Inductive outcome (A : Type) :=
| Return (a : A)
| Raise (e : exn).
Global Arguments Return {A} a.
Global Arguments Raise {A} e.

(** Truth value of an optional [int]: [None] and [0] are false. *)
Definition truthy (k : option Z) : bool :=
  match k with
  | Some n => negb (n =? 0)
  | None => false
  end.

(** [str] of an optional [int]. *)
Definition str_int (k : option Z) : string :=
  match k with
  | Some n => pretty n
  | None => "None"
  end.

(** [round(t)] of a finite float, given by the rational it denotes: the
    nearest integer, a tie going to the even one. *)
Definition round_half_even (t : Q) : Z :=
  let f := Qfloor t in
  match Qcompare (t - inject_Z f) (1 # 2) with
  | Lt => f
  | Gt => f + 1
  | Eq => if Z.even f then f else f + 1
  end.

(** List objects live in a heap and are named by their address: the same
    list may be reached twice, and [append] changes it in place. *)
Abbreviation heap A := (list (list A)).

Definition list_get {A} (h : heap A) (a : nat) : list A :=
  default [] (h !! a).

Definition list_append {A} (h : heap A) (a : nat) (x : A) : heap A :=
  alter (λ l, l ++ [x]) a h.

End Python.

Import Python.

(** ** The feature-store side of the job *)

Definition TOTAL_UNIQUE_USERS : Z := 10000.
Definition FEATURE_GROUP : string := "cc-agg-batch-fg".

(** A feature of a record: the dictionary with the keys ['ValueAsString']
    and ['FeatureName']. *)
Record Feature := {
  ValueAsString : value;
  FeatureName : string
}.

(** What the job does not own: the clock behind [time.time()] and the
    feature store behind [feature_store_client.put_record].  Both are
    indexed by the number of earlier calls; a clock reading is the rational
    value of the float, and the store answers with the HTTP status code of
    its response.  The store is taken to answer every call: the client
    that raises instead of answering is the subject of [Boto3] below. *)
Record World := {
  time_time : nat → Q;
  put_record : nat → string → list Feature → Z
}.

Section Job.

(** Python's [round(x, ndigits)] and [str(x)] on floats. *)
Variable float_round : double → Z → double.
Variable float_str : double → string.

(** The loop of [transform_row]: [record] is a fresh list for every row,
    filled and kept only when [cc_num] is true; [round] raises on
    [None]. *)
Fixpoint transform_row_loop (rows : list Sliced) (h : heap Feature)
    (records : list nat) : outcome (heap Feature * list nat) :=
  match rows with
  | [] => Return (h, records)
  | row :: rows' =>
      let record := length h in
      let h := h ++ [[]] in
      if truthy (s_cc_num row) then
        let h := list_append h record
          {| ValueAsString := PyStr (str_int (s_cc_num row));
             FeatureName := "cc_num" |} in
        let h := list_append h record
          {| ValueAsString := PyStr (pretty (s_num_trans_last_1w row));
             FeatureName := "num_trans_last_1w" |} in
        match s_avg_amt_last_1w row with
        | None => Raise TypeError
        | Some x =>
            let h := list_append h record
              {| ValueAsString := PyStr (float_str (float_round x 2));
                 FeatureName := "avg_amt_last_1w" |} in
            transform_row_loop rows' h (records ++ [record])
        end
      else transform_row_loop rows' h records
  end.

Definition transform_row (sliced_df : list Sliced)
  : outcome (heap Feature * list nat) :=
  transform_row_loop sliced_df [] [].

End Job.

(** The state of [write_to_feature_store] while it loops: the heap, the
    requests sent so far (oldest first) and the two counters. *)
Record Sink := {
  sink_heap : heap Feature;
  sink_sent : list (list Feature);
  success : Z;
  fail : Z
}.

Definition event_time_feature (w : World) (n : nat) : Feature :=
  {| FeatureName := "trans_time";
     ValueAsString := PyStr (pretty (round_half_even (time_time w n))) |}.

Definition write_record (w : World) (st : Sink) (record : nat) : Sink :=
  let n := length (sink_sent st) in
  let h := list_append (sink_heap st) record (event_time_feature w n) in
  let request := list_get h record in
  let status := put_record w n FEATURE_GROUP request in
  {| sink_heap := h;
     sink_sent := sink_sent st ++ [request];
     success := if status =? 200 then success st + 1 else success st;
     fail := if status =? 200 then fail st else fail st + 1 |}.

Definition write_loop (w : World) (h : heap Feature) (records : list nat)
  : Sink :=
  foldl (write_record w)
        {| sink_heap := h; sink_sent := []; success := 0; fail := 0 |}
        records.

(** The two [assert] statements that end [write_to_feature_store]. *)
Definition final_asserts (st : Sink) : outcome () :=
  if success st =? TOTAL_UNIQUE_USERS then
    if fail st =? 0 then Return () else Raise AssertionError
  else Raise AssertionError.

Definition write_to_feature_store (w : World) (h : heap Feature)
    (records : list nat) : Sink * outcome () :=
  let st := write_loop w h records in (st, final_asserts st).

(** [run_spark_job] from the DataFrame read by [spark.read.csv] on: the rows
    handed to [write_to_s3], the requests sent to the feature store, and how
    the job ends. *)
Record Run := {
  written_to_s3 : list Derived;
  sent : list (list Feature);
  result : outcome ()
}.

Definition run_spark_job (float_round : double → Z → double)
    (float_str : double → string) (w : World)
    (transactions_df : list Transaction) : Run :=
  let aggregated_features := aggregate_features transactions_df in
  let sliced_df := group_by_card_number aggregated_features in
  match transform_row float_round float_str sliced_df with
  | Raise e =>
      {| written_to_s3 := aggregated_features; sent := []; result := Raise e |}
  | Return (h, records) =>
      let (st, r) := write_to_feature_store w h records in
      {| written_to_s3 := aggregated_features;
         sent := sink_sent st;
         result := r |}
  end.

(** ** The feature store client that may raise

    [feature_store_client] is a boto3 client: [put_record] returns the
    response of the service, or raises [ClientError] when the service
    rejects the request.  The loop of [write_to_feature_store] has no
    handler, so an exception of the client leaves the function at once. *)

Module Boto3.

Inductive put_outcome :=
| Answers (status : Z)
| Raises.

Record Client := {
  time_time : nat → Q;
  put_record : nat → string → list Feature → put_outcome
}.

Definition event_time_feature (c : Client) (n : nat) : Feature :=
  {| FeatureName := "trans_time";
     ValueAsString := PyStr (pretty (round_half_even (time_time c n))) |}.

(** One turn of the loop; the flag says whether [put_record] raised.  The
    request of a call that raises counts as sent, and leaves the counters
    as they are. *)
Definition write_record (c : Client) (st : Sink) (record : nat)
  : Sink * bool :=
  let n := length (sink_sent st) in
  let h := list_append (sink_heap st) record (event_time_feature c n) in
  let request := list_get h record in
  match put_record c n FEATURE_GROUP request with
  | Raises =>
      ({| sink_heap := h;
          sink_sent := sink_sent st ++ [request];
          success := success st;
          fail := fail st |}, true)
  | Answers status =>
      ({| sink_heap := h;
          sink_sent := sink_sent st ++ [request];
          success := if status =? 200 then success st + 1 else success st;
          fail := if status =? 200 then fail st else fail st + 1 |}, false)
  end.

Fixpoint write_loop (c : Client) (st : Sink) (records : list nat)
  : Sink * bool :=
  match records with
  | [] => (st, false)
  | record :: records' =>
      let (st', raised) := write_record c st record in
      if raised then (st', true) else write_loop c st' records'
  end.

(** How the function ends: with the client's exception, or as the two
    [assert] statements decide once the loop has run to its end. *)
Inductive ending :=
| Asserted (r : outcome ())
| ClientError.

Definition write_to_feature_store (c : Client) (h : heap Feature)
    (records : list nat) : Sink * ending :=
  let (st, raised) :=
    write_loop c
      {| sink_heap := h; sink_sent := []; success := 0; fail := 0 |}
      records in
  (st, if raised then ClientError else Asserted (final_asserts st)).

(** What the client did with a sequence of requests, and the two kinds of
    answer the loop tells apart. *)
Definition responses (c : Client) (requests : list (list Feature))
  : list put_outcome :=
  imap (λ n request, put_record c n FEATURE_GROUP request) requests.

Definition status_200 (o : put_outcome) : bool :=
  match o with
  | Answers status => status =? 200
  | Raises => false
  end.

Definition other_status (o : put_outcome) : bool :=
  match o with
  | Answers status => negb (status =? 200)
  | Raises => false
  end.

End Boto3.

(** The client of a store that answers every call. *)
Definition answering_client (w : World) : Boto3.Client :=
  {| Boto3.time_time := time_time w;
     Boto3.put_record := λ n group request,
                           Boto3.Answers (put_record w n group request) |}.

(** ** The notebook's check of the feature group

    After the job the notebook draws [N] card numbers at random and looks
    each one up in the feature store.  The draw is given here as the list
    [cc_nums]; the store's answer to the [n]-th lookup is
    [get_record n group key]. *)

Definition N_records : Z := 3.

(** The two parts of a response that the check reads: the HTTP status code
    and the record, when the response has the key ['Record']. *)
Record GetRecordResponse := {
  HTTPStatusCode : Z;
  Record_ : option (list Feature)
}.

Definition found (response : GetRecordResponse) : bool :=
  (HTTPStatusCode response =? 200) && bool_decide (is_Some (Record_ response)).

(** The state of the loop: the lookups made, [success] and [fail]. *)
Definition check_record (get_record : nat → string → string → GetRecordResponse)
    (st : nat * Z * Z) (cc_num : Z) : nat * Z * Z :=
  let '(n, success, fail) := st in
  let response := get_record n FEATURE_GROUP (str_int (Some cc_num)) in
  if found response then (S n, success + 1, fail) else (S n, success, fail + 1).

Definition check_feature_group
    (get_record : nat → string → string → GetRecordResponse)
    (cc_nums : list Z) : Z * Z * outcome () :=
  let '(_, success, fail) := foldl (check_record get_record) (0%nat, 0, 0) cc_nums in
  (success, fail,
   if success =? N_records then Return () else Raise AssertionError).

(** ** The split into training and test rows (notebook 3)

    The column [datetime] of the DataFrame read back from the CSV file
    holds strings, and the comparisons with [training_start] and
    [training_end] are comparisons of strings. *)

Definition training_start : string := "2020-01-15".
Definition training_end : string := "2020-04-15".

Section Split.
Context {Row : Type} (datetime_of : Row → string).

Definition training_df (df : list Row) : list Row :=
  filter (λ r, String.ltb training_start (datetime_of r)
               && String.ltb (datetime_of r) training_end) df.

Definition test_df (df : list Row) : list Row :=
  filter (λ r, String.leb training_end (datetime_of r)) df.

End Split.

(** ** Notions used to state the properties *)

(** A list is ordered by [le] when every row is below all later ones. *)
Definition ordered {A} (le : A → A → bool) : list A → Prop :=
  StronglySorted (λ a b, le a b = true).

(** The closed interval [lo, hi] of timestamps; NULL lies in none. *)
Definition closed_interval (lo hi : Z) (o : option Z) : bool :=
  match o with
  | Some u => (lo <=? u) && (u <=? hi)
  | None => false
  end.

(** The window of horizon [delta] that ends at [t] for the card [key]: the
    transactions of the input with that card and an event time in
    [t - delta, t]. *)
Definition window (delta : Z) (transactions_df : list Transaction)
    (key : option Z) (t : Z) : list Transaction :=
  filter (λ r, cc_num r = key ∧ closed_interval (t - delta) t (datetime r))
         transactions_df.

Definition by_event_time (l : list Transaction) : list Transaction :=
  sort_by (λ a b, asc (datetime a) (datetime b)) l.

(** The arithmetic mean in double precision: the sum, taken from the left
    and started at [0.0], over the number of terms. *)
Definition arithmetic_mean (xs : list double) : option double :=
  divide (Some (foldl PrimFloat.add PrimFloat.zero xs))
         (Some (long_to_double (Z.of_nat (length xs)))).

(** The three features [transform_row] gives the record of a row whose
    one-week mean is [x]. *)
Definition row_features (float_round : double → Z → double)
    (float_str : double → string) (row : Sliced) (x : double)
  : list Feature :=
  [ {| ValueAsString := PyStr (str_int (s_cc_num row));
       FeatureName := "cc_num" |};
    {| ValueAsString := PyStr (pretty (s_num_trans_last_1w row));
       FeatureName := "num_trans_last_1w" |};
    {| ValueAsString := PyStr (float_str (float_round x 2));
       FeatureName := "avg_amt_last_1w" |} ].

(** What the caller of [transform_row] sees: the contents of the lists in
    [records], or the exception. *)
Definition records_of (o : outcome (heap Feature * list nat))
  : outcome (list (list Feature)) :=
  match o with
  | Return (h, records) => Return (list_get h <$> records)
  | Raise e => Raise e
  end.

(** The same contents read off the rows, without a heap. *)
Fixpoint record_contents (float_round : double → Z → double)
    (float_str : double → string) (rows : list Sliced)
  : outcome (list (list Feature)) :=
  match rows with
  | [] => Return []
  | row :: rows' =>
      if truthy (s_cc_num row) then
        match s_avg_amt_last_1w row with
        | None => Raise TypeError
        | Some x =>
            match record_contents float_round float_str rows' with
            | Return l =>
                Return (row_features float_round float_str row x :: l)
            | Raise e => Raise e
            end
        end
      else record_contents float_round float_str rows'
  end.

(** The status codes the store answered to a sequence of requests. *)
Definition responses (w : World) (requests : list (list Feature)) : list Z :=
  imap (λ n request, put_record w n FEATURE_GROUP request) requests.

(** The number of features of a record that are named [name]. *)
Definition count_named (name : string) (record : list Feature) : nat :=
  length (filter (λ f, FeatureName f = name) record).

(** Whether each lookup of the check finds its card, when the first lookup
    is the [n0]-th call to the store. *)
Definition lookups (get_record : nat → string → string → GetRecordResponse)
    (n0 : nat) (cc_nums : list Z) : list bool :=
  imap (λ i cc_num,
          found (get_record (n0 + i)%nat FEATURE_GROUP (pretty cc_num)))
       cc_nums.

(** Sample transactions: [purchase t k a] is [a] spent with card [k] at
    [t]; [minutes n] is [n] minutes after midnight. *)
Definition minutes (n : Z) : Z := n * 60 * 1000000.

Definition purchase (t k : Z) (a : double) : Transaction :=
  {| tid := None; datetime := Some t; cc_num := Some k; amount := Some a;
     fraud_label := Some "0" |}.

(** One card; purchases at 10:00, 10:05 and 10:15. *)
Definition three_purchases : list Transaction :=
  [purchase (minutes 600) 7 10; purchase (minutes 605) 7 20;
   purchase (minutes 615) 7 30].

(** One card; two purchases at 10:00 sharp. *)
Definition tied_purchases : list Transaction :=
  [purchase (minutes 600) 7 10; purchase (minutes 600) 7 20].

(** One card; one purchase of amount zero. *)
Definition free_purchase : list Transaction :=
  [purchase (minutes 600) 7 0].


(** The first five rows of the job's output as the notebook displays
    them: five transactions of one card over three days.  [utc d h m s] is
    the time [h:m:s] of the day number [d] since the epoch; day 18262 is
    2020-01-01. *)
Definition utc (d h m s : Z) : Z :=
  (((d * 24 + h) * 60 + m) * 60 + s) * 1000000.

#[warnings="-inexact-float"]
Definition notebook_sample : list Transaction :=
  [ {| tid := Some "873f130f4626ecedbdc250430f950a13";
       datetime := Some (utc 18262 20 10 34);
       cc_num := Some 4006080197832643; amount := Some 16.78%float;
       fraud_label := Some "0" |};
    {| tid := Some "ac0f33bd94c1356acd7e83f547862ec6";
       datetime := Some (utc 18263 2 9 28);
       cc_num := Some 4006080197832643; amount := Some 146.79%float;
       fraud_label := Some "0" |};
    {| tid := Some "3912e7a4bb7a16e8b0fdbdfc378844f3";
       datetime := Some (utc 18263 2 50 26);
       cc_num := Some 4006080197832643; amount := Some 527.58%float;
       fraud_label := Some "0" |};
    {| tid := Some "f204f6e92f55093b7233d983164cd461";
       datetime := Some (utc 18263 18 6 53);
       cc_num := Some 4006080197832643; amount := Some 95.80%float;
       fraud_label := Some "0" |};
    {| tid := Some "7792a0ef0da7b5cc763d9bd25a98c6be";
       datetime := Some (utc 18264 2 37 45);
       cc_num := Some 4006080197832643; amount := Some 80.91%float;
       fraud_label := Some "0" |} ].

(** Stand-ins for Python's [round] and [str] on floats in the examples;
    no example depends on what they return. *)
Definition sample_round (x : double) (ndigits : Z) : double := x.
Definition sample_str (x : double) : string := "20.0".

(** A clock that stands at 1619447604.5 seconds and a store that accepts
    every request. *)
Definition accepting_store : World :=
  {| time_time := λ _, Qmake 3238895209 2;
     put_record := λ _ _ _, 200 |}.

(** * Properties *)

(** Membership in a list that evaluates to its elements. *)
Ltac elem_of_by_evaluation := apply list_elem_of_In; vm_compute; auto.

(** ** Sorting and partitioning *)

Section Sorting.
Context {A : Type} (le : A → A → bool).

Lemma insert_by_perm x l : insert_by le x l ≡ₚ x :: l.
Proof.
  induction l as [|y l IH]; simpl; [done|].
  destruct (le x y); [done|]. rewrite IH. apply Permutation_swap.
Qed.

Lemma sort_by_perm l : sort_by le l ≡ₚ l.
Proof.
  induction l as [|x l IH]; simpl; [done|].
  rewrite insert_by_perm. by f_equiv.
Qed.

Lemma elem_of_sort_by x l : x ∈ sort_by le l ↔ x ∈ l.
Proof. by rewrite sort_by_perm. Qed.

Lemma length_sort_by l : length (sort_by le l) = length l.
Proof. by rewrite sort_by_perm. Qed.

Hypothesis le_total : ∀ a b, le a b = false → le b a = true.
Hypothesis le_trans : ∀ a b c, le a b = true → le b c = true → le a c = true.

Lemma insert_by_ordered x l : ordered le l → ordered le (insert_by le x l).
Proof.
  induction 1 as [|y l Hl IH Hy]; simpl.
  - repeat constructor.
  - destruct (le x y) eqn:Hxy.
    + constructor; [by constructor|]. constructor; [done|].
      eapply Forall_impl; [exact Hy|]. intros z Hz. by eapply le_trans.
    + constructor; [done|]. rewrite insert_by_perm. constructor; [|done].
      by apply le_total.
Qed.

Lemma sort_by_ordered l : ordered le (sort_by le l).
Proof.
  induction l as [|x l IH]; simpl; [constructor|].
  by apply insert_by_ordered.
Qed.

Lemma insert_by_below x l :
  Forall (λ z, le x z = true) l → insert_by le x l = x :: l.
Proof. destruct 1 as [|y l Hy _]; simpl; [done|]. by rewrite Hy. Qed.

(** Selecting rows commutes with the stable sort. *)
Lemma filter_insert_by (P : A → Prop) `{!∀ x, Decision (P x)} x l :
  ordered le l →
  filter P (insert_by le x l)
  = if decide (P x) then insert_by le x (filter P l) else filter P l.
Proof.
  induction 1 as [|y l Hl IH Hy]; simpl.
  - rewrite filter_cons, filter_nil. by destruct (decide (P x)).
  - destruct (le x y) eqn:Hxy.
    + rewrite filter_cons. destruct (decide (P x)) as [HPx|HPx]; [|done].
      rewrite (filter_cons _ y). destruct (decide (P y)); simpl.
      * by rewrite Hxy.
      * symmetry. apply insert_by_below, Forall_forall.
        intros z [_ Hz]%list_elem_of_filter.
        rewrite Forall_forall in Hy. eauto using le_trans.
    + rewrite !(filter_cons _ y), IH.
      destruct (decide (P y)), (decide (P x)); simpl; by rewrite ?Hxy.
Qed.

Lemma filter_sort_by (P : A → Prop) `{!∀ x, Decision (P x)} l :
  filter P (sort_by le l) = sort_by le (filter P l).
Proof.
  induction l as [|x l IH]; simpl; [done|].
  rewrite filter_insert_by by apply sort_by_ordered.
  rewrite filter_cons, IH. by destruct (decide (P x)).
Qed.
End Sorting.

Lemma asc_total a b : asc a b = false → asc b a = true.
Proof. destruct a, b; simpl; try done. intros; lia. Qed.

Lemma asc_trans a b c : asc a b = true → asc b c = true → asc a c = true.
Proof. destruct a, b, c; simpl; try done. intros; lia. Qed.

Lemma asc_antisym a b : asc a b = true → asc b a = true → a = b.
Proof. destruct a, b; simpl; try done. intros; f_equal; lia. Qed.

Lemma asc_refl a : asc a a = true.
Proof. destruct a; simpl; [lia|done]. Qed.

Section Partition.
Context {A : Type} (key : A → option Z).

Lemma partitions_nil (ks : list (option Z)) :
  ks ≫= (λ k, partition_of key k []) = [].
Proof. induction ks as [|k ks IH]; [done|]. by rewrite bind_cons, IH. Qed.

Lemma partitions_skip r rows ks :
  key r ∉ ks →
  ks ≫= (λ k, partition_of key k (r :: rows))
  = ks ≫= (λ k, partition_of key k rows).
Proof.
  induction ks as [|k ks IH]; intros Hr; [done|].
  apply not_elem_of_cons in Hr as [Hne Hr].
  rewrite !bind_cons, IH by done. f_equal.
  unfold partition_of. rewrite filter_cons. by rewrite decide_False.
Qed.

Lemma partitions_cons r rows ks :
  NoDup ks → key r ∈ ks →
  ks ≫= (λ k, partition_of key k (r :: rows))
  ≡ₚ r :: (ks ≫= λ k, partition_of key k rows).
Proof.
  induction 1 as [|k ks Hk Hks IH]; intros Hin; [by inv Hin|].
  rewrite !bind_cons. unfold partition_of at 1. rewrite filter_cons.
  destruct (decide (key r = k)) as [Heq|Hne].
  - rewrite partitions_skip by by rewrite Heq. done.
  - apply elem_of_cons in Hin as [?|Hin]; [done|].
    rewrite IH by done. by rewrite Permutation_middle.
Qed.

Lemma partitions_perm rows ks :
  NoDup ks → (∀ r, r ∈ rows → key r ∈ ks) →
  ks ≫= (λ k, partition_of key k rows) ≡ₚ rows.
Proof.
  intros Hks. induction rows as [|r rows IH]; intros Hin.
  - by rewrite partitions_nil.
  - rewrite partitions_cons by (done || apply Hin; left).
    f_equiv. apply IH. intros r' ?. apply Hin. by right.
Qed.

Lemma partition_keys_perm rows :
  partition_keys key rows ≫= (λ k, partition_of key k rows) ≡ₚ rows.
Proof.
  apply partitions_perm; [apply NoDup_remove_dups|].
  intros r Hr. apply elem_of_remove_dups, list_elem_of_fmap. eauto.
Qed.

Lemma elem_of_partition_of r k rows :
  r ∈ partition_of key k rows ↔ key r = k ∧ r ∈ rows.
Proof. unfold partition_of. by rewrite list_elem_of_filter. Qed.
End Partition.

(** ** The windowed aggregator ([aggregate_features]) *)

Lemma elem_of_window_partition r k rows :
  r ∈ window_partition k rows ↔ cc_num r = k ∧ r ∈ rows.
Proof.
  unfold window_partition. by rewrite elem_of_sort_by, elem_of_partition_of.
Qed.

Lemma elem_of_aggregate_features d rows :
  d ∈ aggregate_features rows ↔
  ∃ cur, cur ∈ rows ∧
    d = outer_select
          (inner_select (window_partition (cc_num cur) rows) cur).
Proof.
  unfold aggregate_features. rewrite list_elem_of_bind. split.
  - intros (k & Hd & _). apply list_elem_of_fmap in Hd as (cur & -> & Hcur).
    apply elem_of_window_partition in Hcur as [<- Hcur]. eauto.
  - intros (cur & Hcur & ->). exists (cc_num cur). split.
    + apply list_elem_of_fmap. eexists; split; [done|].
      by apply elem_of_window_partition.
    + apply elem_of_remove_dups, list_elem_of_fmap. eauto.
Qed.

Lemma window_partitions_perm rows (ks : list (option Z)) :
  ks ≫= (λ k, window_partition k rows)
  ≡ₚ ks ≫= (λ k, partition_of cc_num k rows).
Proof.
  induction ks as [|k ks IH]; [done|]. rewrite !bind_cons, IH.
  unfold window_partition. by rewrite sort_by_perm.
Qed.

Lemma in_frame_self delta o : 0 ≤ delta → in_frame delta o o = true.
Proof. destruct o; simpl; [|done]. intros. apply andb_true_iff. lia. Qed.

Lemma in_frame_mono delta1 delta2 cur o :
  delta1 ≤ delta2 → in_frame delta1 cur o = true → in_frame delta2 cur o = true.
Proof.
  destruct cur, o; simpl; try done.
  rewrite !andb_true_iff. intros; lia.
Qed.

Lemma length_filter_mono {A} (P Q : A → Prop)
    `{!∀ x, Decision (P x), !∀ x, Decision (Q x)} (l : list A) :
  (∀ x, P x → Q x) → (length (filter P l) ≤ length (filter Q l))%nat.
Proof.
  intros HPQ. induction l as [|x l IH]; [done|]. rewrite !filter_cons.
  destruct (decide (P x)), (decide (Q x)); simpl; naive_solver lia.
Qed.

Lemma frame_self {A} (order : A → option Z) delta part cur :
  0 ≤ delta → cur ∈ part → 1 ≤ count_star (frame order delta part cur).
Proof.
  intros Hdelta Hcur. unfold count_star, frame.
  assert (Hin : cur ∈ filter
    (λ r, in_frame delta (order cur) (order r)) part).
  { apply list_elem_of_filter. split; [|done].
    by rewrite in_frame_self. }
  destruct (filter _ part); [by inv Hin|]. simpl. lia.
Qed.

(** The sum and count that [AVG] accumulates over rows without NULL. *)
Lemma avg_buffer_Some xs s n :
  foldl avg_update (s, n) (Some <$> xs)
  = (foldl PrimFloat.add s xs, n + Z.of_nat (length xs)).
Proof.
  revert s n. induction xs as [|x xs IH]; intros s n; simpl.
  - f_equal. lia.
  - unfold avg_update at 2. simpl. rewrite IH. f_equal. lia.
Qed.

Lemma avg_arithmetic_mean xs : avg (Some <$> xs) = arithmetic_mean xs.
Proof. unfold avg, arithmetic_mean. by rewrite avg_buffer_Some. Qed.

Lemma fmap_amount_present (l : list Transaction) :
  (∀ r, r ∈ l → is_Some (amount r)) → amount <$> l = Some <$> omap amount l.
Proof.
  induction l as [|r l IH]; intros Hl; [done|].
  destruct (Hl r) as [x Hx]; [by left|]. simpl. rewrite Hx. simpl.
  f_equal. apply IH. intros r' ?. apply Hl. by right.
Qed.

(** The frame of a row with event time [t] is the window ending at [t], in
    event-time order. *)
Lemma frame_window delta rows cur t :
  datetime cur = Some t →
  frame datetime delta (window_partition (cc_num cur) rows) cur
  = by_event_time (window delta rows (cc_num cur) t).
Proof.
  intros Ht. unfold frame, window_partition, by_event_time, window.
  rewrite filter_sort_by by eauto using asc_total, asc_trans.
  f_equal. unfold partition_of. rewrite list_filter_filter.
  apply list_filter_iff. intros r. rewrite Ht. unfold closed_interval.
  destruct (datetime r); simpl; tauto.
Qed.

Lemma fmap_partitions {A B C} (f : B → C) (g : A → list B) (l : list A) :
  f <$> (l ≫= g) = l ≫= (λ x, f <$> g x).
Proof.
  induction l as [|x l IH]; [done|]. by rewrite !bind_cons, fmap_app, IH.
Qed.

(** C8.  Every input transaction has exactly one windowed record: the
    transactions carried by the output of [aggregate_features] are the
    input transactions up to order, none dropped and none twice. *)
Theorem aggregate_features_one_record_per_transaction
    (transactions_df : list Transaction) :
  (base ∘ win) <$> aggregate_features transactions_df ≡ₚ transactions_df
  ∧ length (aggregate_features transactions_df) = length transactions_df.
Proof.
  assert (Hperm :
    (base ∘ win) <$> aggregate_features transactions_df ≡ₚ transactions_df).
  { unfold aggregate_features. rewrite fmap_partitions.
    erewrite list_bind_ext; [| |done].
    - rewrite window_partitions_perm. apply partition_keys_perm.
    - intros k. simpl. rewrite <-list_fmap_compose.
      apply list_fmap_id. }
  split; [done|].
  apply Permutation_length in Hperm. by rewrite length_fmap in Hperm.
Qed.

(** C4.  In every record of the aggregator both counts are at least one
    and the ten-minute count is at most the one-week count. *)
Theorem window_counts_invariant (transactions_df : list Transaction)
    (d : Derived) :
  d ∈ aggregate_features transactions_df →
  1 ≤ num_trans_last_10m (win d)
  ∧ 1 ≤ num_trans_last_1w (win d)
  ∧ num_trans_last_10m (win d) ≤ num_trans_last_1w (win d).
Proof.
  intros (cur & Hcur & ->)%elem_of_aggregate_features. simpl.
  assert (Hpart : cur ∈ window_partition (cc_num cur) transactions_df)
    by by apply elem_of_window_partition.
  split_and!.
  - by apply frame_self.
  - by apply frame_self.
  - unfold count_star, frame. apply inj_le, length_filter_mono.
    intros r. rewrite !Is_true_true. by apply in_frame_mono.
Qed.

(** The record at 10:15 of the three purchases. *)
Lemma window_counts_invariant_witness :
  let d := outer_select (inner_select three_purchases
                           (purchase (minutes 615) 7 30)) in
  d ∈ aggregate_features three_purchases
  ∧ 1 ≤ num_trans_last_10m (win d)
  ∧ 1 ≤ num_trans_last_1w (win d)
  ∧ num_trans_last_10m (win d) ≤ num_trans_last_1w (win d).
Proof.
  assert (Hd : outer_select (inner_select three_purchases
                               (purchase (minutes 615) 7 30))
               ∈ aggregate_features three_purchases).
  { elem_of_by_evaluation. }
  split; [exact Hd|].
  exact (window_counts_invariant three_purchases _ Hd).
Defined.

(** C5.  When the denominators are not zero the three ratios are the
    quotients of the window columns: [amt_ratio1] is the ten-minute mean
    over the one-week mean, [amt_ratio2] the amount over the one-week mean
    and [count_ratio] the ten-minute count over the one-week count (a NULL
    numerator gives a NULL ratio). *)
Theorem ratio_identities (transactions_df : list Transaction) (d : Derived)
    (mean_long : double) :
  d ∈ aggregate_features transactions_df →
  avg_amt_last_1w (win d) = Some mean_long →
  is_zero mean_long = false →
  is_zero (long_to_double (num_trans_last_1w (win d))) = false →
  amt_ratio1 d
    = (λ mean_short, PrimFloat.div mean_short mean_long)
        <$> avg_amt_last_10m (win d)
  ∧ amt_ratio2 d
    = (λ a, PrimFloat.div a mean_long) <$> amount (base (win d))
  ∧ count_ratio d
    = Some (PrimFloat.div (long_to_double (num_trans_last_10m (win d)))
                          (long_to_double (num_trans_last_1w (win d)))).
Proof.
  intros (cur & Hcur & ->)%elem_of_aggregate_features. simpl.
  intros -> Hmean Hcount. unfold divide. rewrite Hmean, Hcount.
  split_and!; [by destruct (avg _)|by destruct (amount cur)|done].
Qed.

(** The record at 10:15 of the three purchases: means 25 and 20, amount
    30, counts 2 and 3. *)
Lemma ratio_identities_witness :
  let d := outer_select (inner_select three_purchases
                           (purchase (minutes 615) 7 30)) in
  amt_ratio1 d = Some 1.25%float
  ∧ amt_ratio2 d = Some 1.5%float
  ∧ count_ratio d = Some (PrimFloat.div 2 3).
Proof.
  assert (Hd : outer_select (inner_select three_purchases
                               (purchase (minutes 615) 7 30))
               ∈ aggregate_features three_purchases).
  { elem_of_by_evaluation. }
  exact (ratio_identities three_purchases _ 20%float Hd
           eq_refl eq_refl eq_refl).
Defined.

Lemma window_short_long rows key t r :
  r ∈ window INTERVAL_10_MINUTE rows key t →
  r ∈ window INTERVAL_1_WEEK rows key t.
Proof.
  unfold window. rewrite !list_elem_of_filter, !Is_true_true.
  unfold closed_interval, INTERVAL_10_MINUTE, INTERVAL_1_WEEK.
  destruct (datetime r); [|naive_solver].
  rewrite !andb_true_iff. intros [[? [? ?]] ?]. split_and!; [done| |done|done]. lia.
Qed.

Lemma frame_aggregates delta rows cur t :
  datetime cur = Some t →
  (∀ r, r ∈ window delta rows (cc_num cur) t → is_Some (amount r)) →
  let part := window_partition (cc_num cur) rows in
  let w := window delta rows (cc_num cur) t in
  count_star (frame datetime delta part cur) = Z.of_nat (length w)
  ∧ avg (amount <$> frame datetime delta part cur)
    = arithmetic_mean (omap amount (by_event_time w)).
Proof.
  intros Ht Hamount part w. subst part w. rewrite (frame_window _ _ _ t Ht).
  split.
  - unfold count_star, by_event_time. by rewrite length_sort_by.
  - rewrite fmap_amount_present; [apply avg_arithmetic_mean|].
    intros r Hr. apply Hamount. by apply elem_of_sort_by in Hr.
Qed.

(** C3.  For a record with event time [t], the ten-minute count and mean
    are the number of transactions of the same card with an event time in
    [t - 10min, t] and the arithmetic mean of their amounts (summed in
    event-time order), and likewise over [t - 1week, t] for the one-week
    columns.  With purchases of 10, 20 and 30 at 10:00, 10:05 and 10:15 on
    one card, the record at 10:15 has a ten-minute count of 2 and a
    ten-minute mean of 25. *)
Theorem window_aggregates :
  (∀ (transactions_df : list Transaction) (d : Derived) (t : Z),
     d ∈ aggregate_features transactions_df →
     d_datetime d = Some t →
     (∀ r, r ∈ window INTERVAL_1_WEEK transactions_df (d_cc_num d) t →
           is_Some (amount r)) →
     let short := window INTERVAL_10_MINUTE transactions_df (d_cc_num d) t in
     let long := window INTERVAL_1_WEEK transactions_df (d_cc_num d) t in
     num_trans_last_10m (win d) = Z.of_nat (length short)
     ∧ avg_amt_last_10m (win d)
       = arithmetic_mean (omap amount (by_event_time short))
     ∧ num_trans_last_1w (win d) = Z.of_nat (length long)
     ∧ avg_amt_last_1w (win d)
       = arithmetic_mean (omap amount (by_event_time long)))
  ∧ (λ d, (num_trans_last_10m (win d), avg_amt_last_10m (win d)))
      <$> filter (λ d, d_datetime d = Some (minutes 615))
                 (aggregate_features three_purchases)
    = [(2, Some 25%float)].
Proof.
  split; [|by vm_compute].
  intros rows d t (cur & Hcur & ->)%elem_of_aggregate_features Ht Hamount.
  unfold d_datetime, d_cc_num in *. simpl in *.
  destruct (frame_aggregates INTERVAL_10_MINUTE rows cur t Ht) as [H1 H2].
  { intros r Hr. by apply Hamount, window_short_long. }
  destruct (frame_aggregates INTERVAL_1_WEEK rows cur t Ht Hamount)
    as [H3 H4].
  done.
Qed.

(** The record at 10:15 of the three purchases: two purchases in the last
    ten minutes, three in the last week. *)
Lemma window_aggregates_witness :
  let d := outer_select (inner_select three_purchases
                           (purchase (minutes 615) 7 30)) in
  num_trans_last_10m (win d) = 2
  ∧ avg_amt_last_10m (win d)
    = arithmetic_mean [20%float; 30%float]
  ∧ num_trans_last_1w (win d) = 3
  ∧ avg_amt_last_1w (win d)
    = arithmetic_mean [10%float; 20%float; 30%float].
Proof.
  assert (Hd : outer_select (inner_select three_purchases
                               (purchase (minutes 615) 7 30))
               ∈ aggregate_features three_purchases).
  { elem_of_by_evaluation. }
  assert (Hamount : ∀ r,
    r ∈ window INTERVAL_1_WEEK three_purchases (Some 7) (minutes 615) →
    is_Some (amount r)).
  { intros r Hr. apply list_elem_of_In in Hr. vm_compute in Hr.
    destruct Hr as [<-|[<-|[<-|[]]]]; eexists; reflexivity. }
  exact (proj1 window_aggregates three_purchases _ (minutes 615) Hd
           eq_refl Hamount).
Defined.

(** On the five transactions that the notebook displays, the seven
    derived columns are those of the displayed table (which shows six
    decimals): counts 1 and 1 to 5, one-week means 16.78, 81.785,
    230.383333, 196.7375 and 173.572, and the ratios next to them. *)
#[warnings="-inexact-float"]
Lemma notebook_sample_columns :
  (λ d, (num_trans_last_10m (win d), avg_amt_last_10m (win d),
         num_trans_last_1w (win d), avg_amt_last_1w (win d),
         amt_ratio1 d, amt_ratio2 d, count_ratio d))
    <$> aggregate_features notebook_sample
  = [ (1, Some 16.78%float, 1, Some 16.78%float,
       Some 1%float, Some 1%float, Some 1%float);
      (1, Some 146.79%float, 2, Some 81.784999999999997%float,
       Some 1.7948279024270954%float, Some 1.7948279024270954%float,
       Some 0.5%float);
      (1, Some 527.58%float, 3, Some 230.38333333333335%float,
       Some 2.2900094046154957%float, Some 2.2900094046154957%float,
       Some 0.33333333333333331%float);
      (1, Some 95.80%float, 4, Some 196.73750000000001%float,
       Some 0.48694326196073445%float, Some 0.48694326196073445%float,
       Some 0.25%float);
      (1, Some 80.91%float, 5, Some 173.572%float,
       Some 0.46614661350909131%float, Some 0.46614661350909131%float,
       Some 0.2%float) ].
Proof. by vm_compute. Qed.

(** ** The latest-state extractor ([group_by_card_number]) *)

Section DenseRank.
Context {A : Type} (order : A → option Z).

Lemma dense_rank_from_ge prev rank l r q :
  (r, q) ∈ dense_rank_from order prev rank l → rank ≤ q.
Proof.
  revert prev rank. induction l as [|x l IH]; intros prev rank Hin.
  - by inv Hin.
  - simpl in Hin. apply elem_of_cons in Hin as [Heq|Hin].
    + inv Heq. case_decide; lia.
    + apply IH in Hin. case_decide; lia.
Qed.

Lemma dense_rank_from_prefix prev rank l1 d l2 :
  Forall (λ x, order x = prev) l1 → order d = prev →
  (d, rank) ∈ dense_rank_from order prev rank (l1 ++ d :: l2).
Proof.
  intros Hl1 Hd. induction Hl1 as [|x l1 Hx _ IH]; simpl.
  - rewrite decide_True by done. by left.
  - rewrite decide_True by done. right. by rewrite Hx.
Qed.

Lemma dense_rank_top l1 d l2 :
  Forall (λ x, order x = order d) l1 →
  (d, 1) ∈ dense_rank order (l1 ++ d :: l2).
Proof.
  destruct 1 as [|x l1 Hx Hl1]; simpl; [by left|]. right.
  rewrite Hx. by apply dense_rank_from_prefix.
Qed.
End DenseRank.

Lemma ordered_before {A} (le : A → A → bool) l1 d l2 :
  ordered le (l1 ++ d :: l2) → Forall (λ x, le x d = true) l1.
Proof.
  induction l1 as [|x l1 IH]; simpl; [done|].
  intros Hs. apply StronglySorted_inv in Hs as [Hs Hx]. constructor.
  - apply Forall_app in Hx as [_ Hx]. by apply Forall_cons in Hx as [? _].
  - by apply IH.
Qed.

(** A record that no record of its card is later than has rank 1. *)
Lemma latest_in_grouped_df (ds : list Derived) (d : Derived) :
  d ∈ ds →
  (∀ d', d' ∈ ds → d_cc_num d' = d_cc_num d →
         asc (d_datetime d') (d_datetime d) = true) →
  d ∈ grouped_df ds.
Proof.
  intros Hd Hlatest. unfold grouped_df. apply list_elem_of_bind.
  exists (d_cc_num d). split.
  2:{ apply elem_of_remove_dups, list_elem_of_fmap. eauto. }
  apply list_elem_of_fmap. exists (d, 1). split; [done|].
  apply list_elem_of_filter. split; [done|]. unfold sorted_df.
  set (le := λ a b : Derived, desc (d_datetime a) (d_datetime b)).
  assert (Hin : d ∈ sort_by le (partition_of d_cc_num (d_cc_num d) ds)).
  { apply elem_of_sort_by, elem_of_partition_of. done. }
  assert (Hsorted : ordered le
    (sort_by le (partition_of d_cc_num (d_cc_num d) ds))).
  { apply sort_by_ordered; unfold le, desc; eauto using asc_total, asc_trans. }
  assert (Hkey : ∀ x, x ∈ sort_by le (partition_of d_cc_num (d_cc_num d) ds) →
                      asc (d_datetime x) (d_datetime d) = true).
  { intros x [? ?]%elem_of_sort_by%elem_of_partition_of. by apply Hlatest. }
  apply list_elem_of_split in Hin as (l1 & l2 & Heq).
  rewrite Heq in Hsorted, Hkey |- *.
  apply dense_rank_top, Forall_forall. intros x Hx.
  apply asc_antisym.
  - apply Hkey, elem_of_app. by left.
  - apply ordered_before in Hsorted. rewrite Forall_forall in Hsorted.
    by apply Hsorted.
Qed.

(** C1, at two purchases of one card with the same event time: both are of
    rank 1, so [group_by_card_number] returns two rows for the one card. *)
Lemma tie_selects_two_rows :
  partition_keys cc_num tied_purchases = [Some 7]
  ∧ group_by_card_number (aggregate_features tied_purchases)
    = [ {| s_cc_num := Some 7; s_num_trans_last_1w := 2;
           s_avg_amt_last_1w := Some 15%float |};
        {| s_cc_num := Some 7; s_num_trans_last_1w := 2;
           s_avg_amt_last_1w := Some 15%float |} ].
Proof. by vm_compute. Qed.

(** C6, as stated, fails for a single purchase of amount zero: the one-week
    mean is zero, both amount ratios are NULL, and the record is the one
    that [group_by_card_number] selects for its card. *)
Lemma undefined_ratio_record_is_selected :
  ∃ d, d ∈ aggregate_features free_purchase
       ∧ avg_amt_last_1w (win d) = Some 0%float
       ∧ amt_ratio1 d = None
       ∧ amt_ratio2 d = None
       ∧ group_by_card_number (aggregate_features free_purchase)
         = [select_sliced d].
Proof.
  exists (outer_select (inner_select free_purchase
                          (purchase (minutes 600) 7 0))).
  split_and!; try by vm_compute.
  elem_of_by_evaluation.
Qed.

(** C6, amended.  A ratio whose denominator is zero is NULL, not a
    non-finite number.  The record carries no other mark, and
    [group_by_card_number] does not look at the ratios: a record that no
    record of its card is later than is selected, NULL ratio or not. *)
Theorem zero_denominator_gives_null (transactions_df : list Transaction)
    (d : Derived) :
  d ∈ aggregate_features transactions_df →
  (∀ mean_long, avg_amt_last_1w (win d) = Some mean_long →
                is_zero mean_long = true →
                amt_ratio1 d = None ∧ amt_ratio2 d = None)
  ∧ (is_zero (long_to_double (num_trans_last_1w (win d))) = true →
     count_ratio d = None)
  ∧ ((∀ d', d' ∈ aggregate_features transactions_df →
            d_cc_num d' = d_cc_num d →
            asc (d_datetime d') (d_datetime d) = true) →
     select_sliced d
       ∈ group_by_card_number (aggregate_features transactions_df)).
Proof.
  intros Hd. split_and!.
  - apply elem_of_aggregate_features in Hd as (cur & Hcur & ->). simpl.
    intros mean_long -> Hzero. unfold divide. rewrite Hzero.
    split; [by destruct (avg _)|by destruct (amount cur)].
  - apply elem_of_aggregate_features in Hd as (cur & Hcur & ->). simpl.
    intros Hzero. by rewrite Hzero.
  - intros Hlatest. unfold group_by_card_number.
    apply list_elem_of_fmap. exists d. split; [done|].
    by apply latest_in_grouped_df.
Qed.

(** The single purchase of amount zero. *)
Lemma zero_denominator_gives_null_witness :
  let d := outer_select (inner_select free_purchase
                           (purchase (minutes 600) 7 0)) in
  amt_ratio1 d = None
  ∧ amt_ratio2 d = None
  ∧ select_sliced d
      ∈ group_by_card_number (aggregate_features free_purchase).
Proof.
  assert (Hd : outer_select (inner_select free_purchase
                               (purchase (minutes 600) 7 0))
               ∈ aggregate_features free_purchase).
  { elem_of_by_evaluation. }
  destruct (zero_denominator_gives_null free_purchase _ Hd)
    as (Hratio & _ & Hselected).
  destruct (Hratio 0%float eq_refl eq_refl) as [H1 H2].
  split_and!; [exact H1|exact H2|].
  apply Hselected. intros d' Hd' _.
  apply list_elem_of_In in Hd'. vm_compute in Hd'.
  destruct Hd' as [<-|[]]. reflexivity.
Defined.

(** ** List objects *)

Section Heap.
Context {A : Type}.
Implicit Types (h : heap A) (a : nat) (x : A).

Lemma length_list_append h a x : length (list_append h a x) = length h.
Proof. apply length_alter. Qed.

Lemma list_get_append h a x :
  (a < length h)%nat → list_get (list_append h a x) a = list_get h a ++ [x].
Proof.
  intros [l Hl]%lookup_lt_is_Some. unfold list_get, list_append.
  by rewrite list_lookup_alter_eq, Hl.
Qed.

Lemma list_get_append_ne h a b x :
  a ≠ b → list_get (list_append h a x) b = list_get h b.
Proof.
  intros. unfold list_get, list_append. by rewrite list_lookup_alter_ne.
Qed.

Lemma lookup_list_append_ne h a b x :
  a ≠ b → list_append h a x !! b = h !! b.
Proof. intros. unfold list_append. by rewrite list_lookup_alter_ne. Qed.

Lemma list_get_new h : list_get (h ++ [[]]) (length h) = [].
Proof. unfold list_get. by rewrite list_lookup_middle. Qed.
End Heap.

(** ** Building the records ([transform_row]) *)

Section TransformRow.
Variable float_round : double → Z → double.
Variable float_str : double → string.

(** The heap after the three [append]s to the fresh record of a row. *)
Lemma filled_record (h : heap Feature) (f1 f2 f3 : Feature) :
  let a := length h in
  let h3 := list_append (list_append (list_append (h ++ [[]]) a f1) a f2) a f3 in
  length h3 = S (length h)
  ∧ list_get h3 a = [f1; f2; f3]
  ∧ ∀ b, (b < length h)%nat → h3 !! b = h !! b.
Proof.
  intros a h3. subst a h3. split_and!.
  - rewrite !length_list_append, length_app. simpl. lia.
  - rewrite !list_get_append, list_get_new; [done|..];
      rewrite ?length_list_append, length_app; simpl; lia.
  - intros b Hb. rewrite !lookup_list_append_ne by lia.
    by apply lookup_app_l.
Qed.

(** The records returned are fresh, pairwise distinct list objects; the
    lists that existed before are left as they were; and the contents of
    the new ones are those of [record_contents]. *)
Lemma transform_row_loop_spec (rows : list Sliced) :
  ∀ (h : heap Feature) (records : list nat),
    match transform_row_loop float_round float_str rows h records with
    | Return (h', records') =>
        ∃ new, records' = records ++ new
          ∧ record_contents float_round float_str rows
            = Return (list_get h' <$> new)
          ∧ NoDup new
          ∧ (∀ a, a ∈ new → (length h ≤ a < length h')%nat)
          ∧ (length h ≤ length h')%nat
          ∧ (∀ b, (b < length h)%nat → h' !! b = h !! b)
    | Raise e => record_contents float_round float_str rows = Raise e
    end.
Proof.
  induction rows as [|row rows IH]; intros h records; simpl.
  { exists []. rewrite app_nil_r. split_and!; try done.
    - constructor.
    - intros a Ha. by inv Ha. }
  destruct (truthy (s_cc_num row)).
  - destruct (s_avg_amt_last_1w row) as [x|]; [|done].
    match goal with
    | |- context [transform_row_loop _ _ rows ?h3 _] =>
        destruct (filled_record h
          {| ValueAsString := PyStr (str_int (s_cc_num row));
             FeatureName := "cc_num" |}
          {| ValueAsString := PyStr (pretty (s_num_trans_last_1w row));
             FeatureName := "num_trans_last_1w" |}
          {| ValueAsString := PyStr (float_str (float_round x 2));
             FeatureName := "avg_amt_last_1w" |}) as (Hlen & Hget & Hold);
        specialize (IH h3 (records ++ [length h]));
        destruct (transform_row_loop _ _ rows h3 _) as [[h' records']|e]
    end; [|by rewrite IH].
    destruct IH as (new & -> & Hc & Hnd & Hrange & Hle & Hkeep).
    exists (length h :: new). split_and!.
    + by rewrite <-app_assoc.
    + rewrite Hc. simpl. do 2 f_equal. unfold row_features.
      rewrite <-Hget. unfold list_get. rewrite Hkeep; [done|lia].
    + constructor; [|done]. intros Hin%Hrange. lia.
    + intros a [->|Ha%Hrange]%elem_of_cons; lia.
    + lia.
    + intros b Hb. rewrite Hkeep by lia. by apply Hold.
  - specialize (IH (h ++ [[]]) records).
    destruct (transform_row_loop _ _ rows _ _) as [[h' records']|e]; [|done].
    destruct IH as (new & -> & Hc & Hnd & Hrange & Hle & Hkeep).
    rewrite length_app in Hrange, Hle, Hkeep. simpl in *.
    exists new. split_and!; try done.
    + intros a Ha%Hrange. lia.
    + lia.
    + intros b Hb. rewrite Hkeep by lia. by apply lookup_app_l.
Qed.

Lemma transform_row_contents (sliced_df : list Sliced) :
  records_of (transform_row float_round float_str sliced_df)
  = record_contents float_round float_str sliced_df.
Proof.
  unfold transform_row.
  pose proof (transform_row_loop_spec sliced_df [] []) as Hspec.
  destruct (transform_row_loop _ _ _ _ _) as [[h records]|e]; simpl; [|done].
  by destruct Hspec as (new & -> & -> & _).
Qed.

Lemma transform_row_fresh (sliced_df : list Sliced) h records :
  transform_row float_round float_str sliced_df = Return (h, records) →
  NoDup records ∧ ∀ a, a ∈ records → (a < length h)%nat.
Proof.
  unfold transform_row. intros Heq.
  pose proof (transform_row_loop_spec sliced_df [] []) as Hspec.
  rewrite Heq in Hspec. destruct Hspec as (new & -> & _ & ? & Hrange & _).
  split; [done|]. intros a Ha%Hrange. lia.
Qed.

(** Rows with a false [cc_num] leave no trace in the records. *)
Lemma record_contents_filter (rows : list Sliced) :
  record_contents float_round float_str
    (filter (λ row, truthy (s_cc_num row)) rows)
  = record_contents float_round float_str rows.
Proof.
  induction rows as [|row rows IH]; [done|]. rewrite filter_cons.
  destruct (truthy (s_cc_num row)) eqn:Hk; simpl.
  - rewrite Hk, IH. done.
  - by rewrite Hk.
Qed.

(** The records of a run that returns, one per row with a true [cc_num]. *)
Lemma record_contents_Return (rows : list Sliced) contents :
  record_contents float_round float_str rows = Return contents →
  Forall2 (λ row c, ∃ x, s_avg_amt_last_1w row = Some x
                         ∧ c = row_features float_round float_str row x)
          (filter (λ row, truthy (s_cc_num row)) rows) contents.
Proof.
  revert contents. induction rows as [|row rows IH]; intros contents; simpl.
  { intros [= <-]. constructor. }
  rewrite filter_cons. destruct (truthy (s_cc_num row)); simpl; [|by auto].
  destruct (s_avg_amt_last_1w row) as [x|] eqn:Hx; [|done].
  destruct (record_contents _ _ rows) as [l|e]; [|done].
  intros [= <-]. constructor; eauto.
Qed.

End TransformRow.

(** ** Publishing the records ([write_to_feature_store]) *)

Section WriteLoop.
Variable w : World.

Lemma write_loop_snoc (h : heap Feature) records a :
  write_loop w h (records ++ [a]) = write_record w (write_loop w h records) a.
Proof. unfold write_loop. by rewrite foldl_snoc. Qed.

Lemma responses_snoc requests request :
  responses w (requests ++ [request])
  = responses w requests
    ++ [put_record w (length requests) FEATURE_GROUP request].
Proof.
  unfold responses. rewrite imap_app. simpl. by rewrite Nat.add_0_r.
Qed.

(** Every record is sent, whatever the store answers, and the counters
    count the answers that are 200 and those that are not. *)
Lemma write_loop_counters (h : heap Feature) (records : list nat) :
  let st := write_loop w h records in
  length (sink_sent st) = length records
  ∧ success st
    = Z.of_nat (length (filter (λ c, c = 200) (responses w (sink_sent st))))
  ∧ fail st
    = Z.of_nat (length (filter (λ c, c ≠ 200) (responses w (sink_sent st)))).
Proof.
  induction records as [|a records IH] using rev_ind; [done|].
  rewrite write_loop_snoc. destruct IH as (Hlen & Hs & Hf).
  set (st := write_loop w h records) in *. simpl.
  rewrite responses_snoc, !filter_app, !length_app, !filter_cons, !filter_nil.
  split_and!.
  - simpl. lia.
  - destruct (Z.eqb_spec
      (put_record w (length (sink_sent st)) FEATURE_GROUP
         (list_get (list_append (sink_heap st) a
            (event_time_feature w (length (sink_sent st)))) a)) 200)
      as [Heq|Hne].
    + rewrite decide_True by done. simpl. lia.
    + rewrite decide_False by done. simpl. lia.
  - destruct (Z.eqb_spec
      (put_record w (length (sink_sent st)) FEATURE_GROUP
         (list_get (list_append (sink_heap st) a
            (event_time_feature w (length (sink_sent st)))) a)) 200)
      as [Heq|Hne].
    + rewrite decide_False by (intros Hne; by apply Hne). simpl. lia.
    + rewrite decide_True by done. simpl. lia.
Qed.

(** When the records are distinct list objects, the request for the
    [n]-th one is its contents followed by the time feature of the [n]-th
    clock reading; the other lists of the heap are not touched. *)
Lemma write_loop_sent (h : heap Feature) (records : list nat) :
  NoDup records → (∀ a, a ∈ records → (a < length h)%nat) →
  let st := write_loop w h records in
  sink_sent st
  = imap (λ n a, list_get h a ++ [event_time_feature w n]) records
  ∧ length (sink_heap st) = length h
  ∧ ∀ b, b ∉ records → sink_heap st !! b = h !! b.
Proof.
  induction records as [|a records IH] using rev_ind; [done|].
  intros [Hnd [Ha _]]%NoDup_app Hrange.
  assert (Ha' : a ∉ records) by (intros ?; eapply Ha; [done|by left]).
  destruct IH as (Hsent & Hlen & Hkeep); [done|..].
  { intros b Hb. apply Hrange, elem_of_app. by left. }
  rewrite write_loop_snoc. set (st := write_loop w h records) in *. simpl.
  assert (Hn : length (sink_sent st) = length records)
    by by rewrite Hsent, length_imap.
  split_and!.
  - rewrite imap_app. simpl. rewrite Nat.add_0_r, Hn, Hsent. f_equal. f_equal.
    rewrite list_get_append.
    + unfold list_get. by rewrite Hkeep.
    + rewrite Hlen. apply Hrange, elem_of_app. right. by left.
  - by rewrite length_list_append.
  - intros b [Hb [Hba _]%not_elem_of_cons]%not_elem_of_app.
    rewrite lookup_list_append_ne by done. by apply Hkeep.
Qed.

Lemma final_asserts_Return (st : Sink) :
  final_asserts st = Return () ↔ success st = TOTAL_UNIQUE_USERS ∧ fail st = 0.
Proof.
  unfold final_asserts.
  destruct (Z.eqb_spec (success st) TOTAL_UNIQUE_USERS),
           (Z.eqb_spec (fail st) 0);
    (split; [intros H; try discriminate H; done|intros [? ?]; done]).
Qed.

Lemma final_asserts_Raise (st : Sink) :
  final_asserts st ≠ Return () → final_asserts st = Raise AssertionError.
Proof. unfold final_asserts. by repeat case_match. Qed.

End WriteLoop.

(** C2, as stated, fails on a run over one card with a store that accepts
    every request: the success count is 1, the number of distinct cards,
    and the failure count is 0, yet the final assertion fails (the same with
    the client of that store). *)
Lemma one_card_run_fails_the_assertion :
  ∃ h records st,
    transform_row sample_round sample_str
      (group_by_card_number (aggregate_features three_purchases))
    = Return (h, records)
    ∧ write_to_feature_store accepting_store h records
      = (st, Raise AssertionError)
    ∧ success st
      = Z.of_nat (length (partition_keys cc_num three_purchases))
    ∧ fail st = 0
    ∧ Boto3.write_to_feature_store (answering_client accepting_store)
        h records
      = (st, Boto3.Asserted (Raise AssertionError)).
Proof.
  do 3 eexists. split_and!.
  - by vm_compute.
  - by vm_compute.
  - by vm_compute.
  - by vm_compute.
  - vm_compute. reflexivity.
Qed.

(** With a store that answers every put ([World]), the loop sends every
    record; the success count is the number of answers with status 200 and
    the failure count the number of other answers; the two assertions
    follow the loop. *)
Lemma write_to_feature_store_postcondition (w : World) (h : heap Feature)
    (records : list nat) :
  let st := (write_to_feature_store w h records).1 in
  let r := (write_to_feature_store w h records).2 in
  length (sink_sent st) = length records
  ∧ success st
    = Z.of_nat (length (filter (λ c, c = 200) (responses w (sink_sent st))))
  ∧ fail st
    = Z.of_nat (length (filter (λ c, c ≠ 200) (responses w (sink_sent st))))
  ∧ (r = Return () ↔ success st = TOTAL_UNIQUE_USERS ∧ fail st = 0)
  ∧ (r ≠ Return () → r = Raise AssertionError).
Proof.
  simpl. destruct (write_loop_counters w h records) as (Hlen & Hs & Hf).
  split_and!; try done.
  - apply final_asserts_Return.
  - apply final_asserts_Raise.
Qed.

(** *** With the client that may raise *)

Section Boto3Loop.
Variable c : Boto3.Client.

Lemma boto3_write_loop_app (st : Sink) (l1 l2 : list nat) :
  Boto3.write_loop c st (l1 ++ l2)
  = let (st1, raised) := Boto3.write_loop c st l1 in
    if raised then (st1, true) else Boto3.write_loop c st1 l2.
Proof.
  revert st. induction l1 as [|a l1 IH]; intros st; simpl; [done|].
  destruct (Boto3.write_record c st a) as [st' []]; [done|]. apply IH.
Qed.

Lemma boto3_responses_snoc requests request :
  Boto3.responses c (requests ++ [request])
  = Boto3.responses c requests
    ++ [Boto3.put_record c (length requests) FEATURE_GROUP request].
Proof.
  unfold Boto3.responses. rewrite imap_app. simpl. by rewrite Nat.add_0_r.
Qed.

(** What holds when the loop stops, by an exception or at its end: the
    requests sent are at most one per record, and one per record when no
    put raised; the counters count the answers with status 200 and the
    other answers; and a put that raised is the last request sent. *)
Lemma boto3_write_loop_invariant (h : heap Feature) (records : list nat)
    (st : Sink) (raised : bool) :
  Boto3.write_loop c
    {| sink_heap := h; sink_sent := []; success := 0; fail := 0 |} records
  = (st, raised) →
  (length (sink_sent st) ≤ length records)%nat
  ∧ (raised = false → length (sink_sent st) = length records)
  ∧ success st
    = Z.of_nat (length (filter (λ o, Boto3.status_200 o)
                               (Boto3.responses c (sink_sent st))))
  ∧ fail st
    = Z.of_nat (length (filter (λ o, Boto3.other_status o)
                               (Boto3.responses c (sink_sent st))))
  ∧ (∀ n request,
       sink_sent st !! n = Some request →
       Boto3.put_record c n FEATURE_GROUP request = Boto3.Raises →
       raised = true ∧ length (sink_sent st) = S n)
  ∧ (raised = true →
     ∃ n request,
       length (sink_sent st) = S n
       ∧ sink_sent st !! n = Some request
       ∧ Boto3.put_record c n FEATURE_GROUP request = Boto3.Raises).
Proof.
  revert st raised. induction records as [|a records IH] using rev_ind;
    intros st raised Heq.
  { injection Heq as <- <-. simpl. by split_and!. }
  rewrite boto3_write_loop_app in Heq.
  destruct (Boto3.write_loop c _ records) as [st1 raised1].
  destruct (IH st1 raised1 eq_refl) as (Hle & Hall & Hs & Hf & Hraise & Hlast).
  rewrite length_app. simpl. destruct raised1.
  { injection Heq as <- <-. split_and!; try done. lia. }
  specialize (Hall eq_refl). simpl in Heq.
  unfold Boto3.write_record in Heq.
  set (n := length (sink_sent st1)) in *.
  set (request := list_get
         (list_append (sink_heap st1) a (Boto3.event_time_feature c n)) a)
    in *.
  assert (Hlookup : ∀ m req, (sink_sent st1 ++ [request]) !! m = Some req →
            Boto3.put_record c m FEATURE_GROUP req = Boto3.Raises →
            m = n ∧ req = request).
  { intros m req [Hm|[Hge Hm]]%lookup_app_Some Hr.
    - by destruct (Hraise m req Hm Hr).
    - apply list_lookup_singleton_Some in Hm as [Hm <-]. subst n.
      split; [lia|done]. }
  destruct (Boto3.put_record c n FEATURE_GROUP request) as [status|] eqn:Hput;
    simpl in Heq; injection Heq as <- <-; simpl;
    rewrite boto3_responses_snoc, !filter_app, !length_app;
    fold n; rewrite Hput, !filter_cons, !filter_nil; simpl.
  - split_and!.
    + lia.
    + intros _. lia.
    + destruct (status =? 200); simpl; lia.
    + destruct (status =? 200); simpl; lia.
    + intros m req Hm Hr. destruct (Hlookup m req Hm Hr) as [-> ->].
      congruence.
    + done.
  - split_and!.
    + lia.
    + done.
    + lia.
    + lia.
    + intros m req Hm Hr. destruct (Hlookup m req Hm Hr) as [-> ->].
      split; [done|]. subst n. lia.
    + intros _. exists n, request. split_and!; [subst n; lia| |done].
      subst n. by rewrite list_lookup_middle.
Qed.

(** With a client that answers every call the loop is the one of
    [write_to_feature_store] over the store behind it. *)
Lemma answering_client_agrees (w : World) (h : heap Feature)
    (records : list nat) :
  Boto3.write_to_feature_store (answering_client w) h records
  = ((write_to_feature_store w h records).1,
     Boto3.Asserted (write_to_feature_store w h records).2).
Proof.
  unfold Boto3.write_to_feature_store, write_to_feature_store, write_loop.
  generalize {| sink_heap := h; sink_sent := []; success := 0; fail := 0 |}.
  induction records as [|a records IH]; intros st; simpl; [done|].
  apply IH.
Qed.

End Boto3Loop.

(** Every answer has status 200 or another status. *)
Lemma answers_split (os : list Boto3.put_outcome) :
  Forall (λ o, o ≠ Boto3.Raises) os →
  length os
  = (length (filter (λ o, Boto3.status_200 o) os)
     + length (filter (λ o, Boto3.other_status o) os))%nat.
Proof.
  induction 1 as [|o os Ho _ IH]; [done|]. rewrite !filter_cons.
  destruct o as [status|]; [|done]. simpl.
  destruct (status =? 200); simpl; lia.
Qed.

(** C2, amended.  Whenever the client answers every put of the batch,
    [write_to_feature_store] has attempted a put for every record, its
    success count is the number of answers with status 200 and its failure
    count the number of other answers; after the batch it asserts that the
    success count is [TOTAL_UNIQUE_USERS], the constant 10000, and then
    that the failure count is zero, and a failed assertion is then the only
    error. *)
Theorem write_to_feature_store_asserts_after_the_batch (c : Boto3.Client)
    (h : heap Feature) (records : list nat) :
  let st := (Boto3.write_to_feature_store c h records).1 in
  let r := (Boto3.write_to_feature_store c h records).2 in
  (∀ n request, sink_sent st !! n = Some request →
                Boto3.put_record c n FEATURE_GROUP request ≠ Boto3.Raises) →
  length (sink_sent st) = length records
  ∧ success st
    = Z.of_nat (length (filter (λ o, Boto3.status_200 o)
                               (Boto3.responses c (sink_sent st))))
  ∧ fail st
    = Z.of_nat (length (filter (λ o, Boto3.other_status o)
                               (Boto3.responses c (sink_sent st))))
  ∧ length (Boto3.responses c (sink_sent st))
    = (length (filter (λ o, Boto3.status_200 o)
                      (Boto3.responses c (sink_sent st)))
       + length (filter (λ o, Boto3.other_status o)
                        (Boto3.responses c (sink_sent st))))%nat
  ∧ (r = Boto3.Asserted (Return ()) ↔
     success st = TOTAL_UNIQUE_USERS ∧ fail st = 0)
  ∧ (r ≠ Boto3.Asserted (Return ()) →
     r = Boto3.Asserted (Raise AssertionError)).
Proof.
  unfold Boto3.write_to_feature_store.
  pose proof (boto3_write_loop_invariant c h records) as Hinv.
  destruct (Boto3.write_loop c _ records) as [st raised]. simpl.
  destruct (Hinv st raised eq_refl) as (_ & Hall & Hs & Hf & _ & Hlast).
  intros Hanswered.
  assert (raised = false) as ->.
  { destruct raised; [|done].
    destruct (Hlast eq_refl) as (n & request & _ & Hn & Hr).
    by destruct (Hanswered n request Hn). }
  split_and!; [by apply Hall|done|done| | |].
  - apply answers_split, Forall_lookup. intros n o.
    unfold Boto3.responses. rewrite list_lookup_imap.
    destruct (sink_sent st !! n) as [request|] eqn:Hn; [|done].
    intros [= <-]. by apply Hanswered.
  - split.
    + intros [= Hr]. by apply final_asserts_Return.
    + intros Hr. f_equal. by apply final_asserts_Return.
  - intros Hr. f_equal. apply final_asserts_Raise. congruence.
Qed.

(** One record and a store that accepts it. *)
Lemma write_to_feature_store_asserts_after_the_batch_witness :
  let c := answering_client accepting_store in
  let h := [[ {| ValueAsString := PyStr "7"; FeatureName := "cc_num" |} ]] in
  let st := (Boto3.write_to_feature_store c h [0%nat]).1 in
  length (sink_sent st) = 1%nat
  ∧ success st = 1
  ∧ fail st = 0
  ∧ (Boto3.write_to_feature_store c h [0%nat]).2
    = Boto3.Asserted (Raise AssertionError).
Proof.
  intros c h st.
  destruct (write_to_feature_store_asserts_after_the_batch c h [0%nat])
    as (Hlen & Hs & Hf & _ & _ & Hr).
  { intros n request _ Hraises. discriminate Hraises. }
  split_and!; [exact Hlen|exact Hs|exact Hf|].
  apply Hr. intros Heq. vm_compute in Heq. discriminate Heq.
Defined.

(** When the client raises on a put, the function ends with that exception
    at once: the put that raised is the last request sent, the records
    after it are not sent, neither assertion is evaluated, and the counters
    hold the answers received before. *)
Theorem client_error_ends_the_batch (c : Boto3.Client) (h : heap Feature)
    (records : list nat) :
  let st := (Boto3.write_to_feature_store c h records).1 in
  let r := (Boto3.write_to_feature_store c h records).2 in
  (length (sink_sent st) ≤ length records)%nat
  ∧ (∀ n request,
       sink_sent st !! n = Some request →
       Boto3.put_record c n FEATURE_GROUP request = Boto3.Raises →
       r = Boto3.ClientError ∧ length (sink_sent st) = S n)
  ∧ (r = Boto3.ClientError ↔
     ∃ n request,
       length (sink_sent st) = S n
       ∧ sink_sent st !! n = Some request
       ∧ Boto3.put_record c n FEATURE_GROUP request = Boto3.Raises)
  ∧ success st
    = Z.of_nat (length (filter (λ o, Boto3.status_200 o)
                               (Boto3.responses c (sink_sent st))))
  ∧ fail st
    = Z.of_nat (length (filter (λ o, Boto3.other_status o)
                               (Boto3.responses c (sink_sent st)))).
Proof.
  unfold Boto3.write_to_feature_store.
  pose proof (boto3_write_loop_invariant c h records) as Hinv.
  destruct (Boto3.write_loop c _ records) as [st raised]. simpl.
  destruct (Hinv st raised eq_refl) as (Hle & _ & Hs & Hf & Hraise & Hlast).
  split_and!; [done| | |done|done].
  - intros n request Hn Hr. destruct (Hraise n request Hn Hr) as [-> ?].
    done.
  - split.
    + destruct raised; [|done]. intros _. by apply Hlast.
    + intros (n & request & _ & Hn & Hr).
      by destruct (Hraise n request Hn Hr) as [-> _].
Qed.

(** Three records and a client that raises on the second put: two requests
    are sent, the third record is left as it was, and the function ends with
    the client's exception, one success counted. *)
Lemma rejected_put_ends_the_batch :
  let c := {| Boto3.time_time := λ _, Qmake 3238895209 2;
              Boto3.put_record := λ n _ _,
                if (n =? 1)%nat then Boto3.Raises else Boto3.Answers 200 |} in
  let run := Boto3.write_to_feature_store c [[]; []; []] [0; 1; 2]%nat in
  length (sink_sent run.1) = 2%nat
  ∧ list_get (sink_heap run.1) 2 = []
  ∧ success run.1 = 1
  ∧ fail run.1 = 0
  ∧ run.2 = Boto3.ClientError.
Proof. by vm_compute. Qed.

(** C7, as stated, fails on the empty batch: nothing is sent, and the run
    ends in a failed assertion. *)
Lemma empty_batch_fails_the_assertion :
  sent (run_spark_job sample_round sample_str accepting_store []) = []
  ∧ result (run_spark_job sample_round sample_str accepting_store [])
    ≠ Return ().
Proof. split; [done|]. by vm_compute. Qed.

(** C7, amended.  On a batch without any account key nothing is sent to
    the feature store and the run ends in a failed assertion, since the
    success count 0 is not [TOTAL_UNIQUE_USERS]. *)
Theorem empty_batch_sends_nothing (float_round : double → Z → double)
    (float_str : double → string) (w : World)
    (transactions_df : list Transaction) :
  partition_keys cc_num transactions_df = [] →
  sent (run_spark_job float_round float_str w transactions_df) = []
  ∧ result (run_spark_job float_round float_str w transactions_df)
    = Raise AssertionError.
Proof.
  intros Hkeys. destruct transactions_df as [|r rows]; [done|].
  assert (Hr : cc_num r ∈ partition_keys cc_num (r :: rows)).
  { apply elem_of_remove_dups. by left. }
  rewrite Hkeys in Hr. by inv Hr.
Qed.

(** The empty batch. *)
Lemma empty_batch_sends_nothing_witness :
  sent (run_spark_job sample_round sample_str accepting_store []) = []
  ∧ result (run_spark_job sample_round sample_str accepting_store [])
    = Raise AssertionError.
Proof.
  exact (empty_batch_sends_nothing sample_round sample_str accepting_store
           [] eq_refl).
Defined.

(** ** The run as a whole ([run_spark_job]) *)

Lemma length_filter_split (cs : list Z) :
  (length (filter (λ c, c = 200%Z) cs)
   + length (filter (λ c, c ≠ 200%Z) cs))%nat
  = length cs.
Proof.
  induction cs as [|c cs IH]; [done|]. rewrite !filter_cons.
  destruct (decide (c = 200)).
  - rewrite decide_False by (intros Hne; by apply Hne). simpl. lia.
  - rewrite decide_True by done. simpl. lia.
Qed.

(** The requests of a run whose records come from [transform_row]: the
    contents of each record followed by its time feature. *)
Lemma sent_requests float_round float_str (w : World) sliced_df h records :
  transform_row float_round float_str sliced_df = Return (h, records) →
  ∃ contents,
    record_contents float_round float_str sliced_df = Return contents
    ∧ length contents = length records
    ∧ sink_sent (write_loop w h records)
      = imap (λ n c, c ++ [event_time_feature w n]) contents.
Proof.
  intros Heq. exists (list_get h <$> records). split_and!.
  - by rewrite <-transform_row_contents, Heq.
  - by rewrite length_fmap.
  - destruct (transform_row_fresh _ _ _ _ _ Heq) as [Hnd Hrange].
    destruct (write_loop_sent w h records Hnd Hrange) as (-> & _).
    by rewrite imap_fmap.
Qed.

Lemma sent_request_shape float_round float_str (w : World) sliced_df h records
    n request :
  transform_row float_round float_str sliced_df = Return (h, records) →
  sink_sent (write_loop w h records) !! n = Some request →
  ∃ row x, row ∈ sliced_df
    ∧ truthy (s_cc_num row) = true
    ∧ s_avg_amt_last_1w row = Some x
    ∧ request = row_features float_round float_str row x
                ++ [event_time_feature w n].
Proof.
  intros Heq Hn.
  destruct (sent_requests _ _ w _ _ _ Heq) as (contents & Hc & _ & Hsent).
  rewrite Hsent, list_lookup_imap in Hn.
  destruct (contents !! n) as [c|] eqn:Hcn; [|done].
  injection Hn as <-.
  apply record_contents_Return in Hc.
  destruct (Forall2_lookup_r _ _ _ _ _ Hc Hcn) as (row & Hrow & x & Hx & ->).
  apply list_elem_of_lookup_2, list_elem_of_filter in Hrow as [Hk Hrow].
  apply Is_true_true in Hk. eauto 10.
Qed.

(** C9.  Every request sent to the feature store is the three features of
    a selected row followed by one feature named [trans_time], whose value
    is the clock reading at that request, rounded to whole seconds and
    printed as a decimal string; no other feature has that name, and every
    feature value is a string. *)
Theorem published_record_shape (float_round : double → Z → double)
    (float_str : double → string) (w : World)
    (transactions_df : list Transaction) (n : nat) (request : list Feature) :
  sent (run_spark_job float_round float_str w transactions_df) !! n
    = Some request →
  (∃ row x,
     row ∈ group_by_card_number (aggregate_features transactions_df)
     ∧ request
       = row_features float_round float_str row x
         ++ [ {| ValueAsString :=
                   PyStr (pretty (round_half_even (time_time w n)));
                 FeatureName := "trans_time" |} ])
  ∧ count_named "trans_time" request = 1%nat
  ∧ Forall (λ f, is_str (ValueAsString f) = true) request.
Proof.
  unfold run_spark_job.
  destruct (transform_row _ _ _) as [[h records]|e] eqn:Heq; [|done].
  simpl. intros Hn.
  destruct (sent_request_shape _ _ _ _ _ _ _ _ Heq Hn)
    as (row & x & Hrow & _ & _ & ->).
  split_and!.
  - by exists row, x.
  - done.
  - by repeat constructor.
Qed.

(** The one request of the run over the three purchases. *)
Lemma published_record_shape_witness :
  let request :=
    [ {| ValueAsString := PyStr "7"; FeatureName := "cc_num" |};
      {| ValueAsString := PyStr "3"; FeatureName := "num_trans_last_1w" |};
      {| ValueAsString := PyStr "20.0"; FeatureName := "avg_amt_last_1w" |};
      {| ValueAsString := PyStr "1619447604"; FeatureName := "trans_time" |} ]
  in
  sent (run_spark_job sample_round sample_str accepting_store three_purchases)
  = [request]
  ∧ count_named "trans_time" request = 1%nat
  ∧ Forall (λ f, is_str (ValueAsString f) = true) request.
Proof.
  split; [by vm_compute|].
  exact (proj2 (published_record_shape sample_round sample_str
                  accepting_store three_purchases 0 _ eq_refl)).
Defined.

Lemma truthy_nonzero (k : option Z) :
  truthy k = true → ∃ n, k = Some n ∧ n ≠ 0.
Proof.
  destruct k as [n|]; simpl; [|done].
  intros Hn%negb_true_iff%Z.eqb_neq. eauto.
Qed.

Lemma pretty_nonzero (n : Z) : n ≠ 0 → pretty n ≠ "0".
Proof. intros Hn Heq. apply Hn. by apply (inj pretty). Qed.

(** C10.  A row whose [cc_num] is NULL or zero is skipped: the records
    [transform_row] returns are those it returns without such rows; the
    feature store receives one request per remaining row, and the two
    counters account for those requests only; and the [cc_num] feature of
    every request names a card number that is not zero. *)
Theorem falsy_keys_are_skipped (float_round : double → Z → double)
    (float_str : double → string) (w : World) (sliced_df : list Sliced) :
  let kept := filter (λ row, truthy (s_cc_num row)) sliced_df in
  records_of (transform_row float_round float_str sliced_df)
  = records_of (transform_row float_round float_str kept)
  ∧ ∀ h records,
      transform_row float_round float_str sliced_df = Return (h, records) →
      let st := (write_to_feature_store w h records).1 in
      length records = length kept
      ∧ length (sink_sent st) = length kept
      ∧ success st + fail st = Z.of_nat (length kept)
      ∧ ∀ request f,
          request ∈ sink_sent st → f ∈ request → FeatureName f = "cc_num" →
          ∃ k, k ≠ 0
               ∧ ValueAsString f = PyStr (pretty k)
               ∧ ValueAsString f ≠ PyStr "0".
Proof.
  intros kept. subst kept. split.
  { by rewrite !transform_row_contents, record_contents_filter. }
  intros h records Heq. simpl.
  destruct (sent_requests _ _ w _ _ _ Heq) as (contents & Hc & Hlen & Hsent).
  destruct (write_loop_counters w h records) as (Hn & Hs & Hf).
  assert (Hkept : length records
    = length (filter (λ row, truthy (s_cc_num row)) sliced_df)).
  { rewrite <-Hlen. apply record_contents_Return in Hc.
    by apply Forall2_length in Hc. }
  split_and!.
  - done.
  - by rewrite Hn.
  - rewrite Hs, Hf, <-Nat2Z.inj_add, length_filter_split.
    unfold responses. by rewrite length_imap, Hn, Hkept.
  - intros request f [n Hrequest]%list_elem_of_lookup_1 Hf' Hname.
    destruct (sent_request_shape _ _ _ _ _ _ _ _ Heq Hrequest)
      as (row & x & _ & Hk & _ & ->).
    apply truthy_nonzero in Hk as (k & Hk & Hne).
    exists k. unfold row_features in Hf'. rewrite Hk in Hf'. simpl in Hf'.
    repeat (apply elem_of_cons in Hf' as [->|Hf']); try done.
    + split_and!; [done|done|]. simpl. intros [= Hp].
      by apply (pretty_nonzero k).
    + by inv Hf'.
Qed.

(** Three selected rows with the keys 0, NULL and 7: one record, one
    request. *)
Lemma falsy_keys_are_skipped_witness :
  let sliced_df :=
    [ {| s_cc_num := Some 0; s_num_trans_last_1w := 1;
         s_avg_amt_last_1w := Some 5%float |};
      {| s_cc_num := None; s_num_trans_last_1w := 2;
         s_avg_amt_last_1w := None |};
      {| s_cc_num := Some 7; s_num_trans_last_1w := 3;
         s_avg_amt_last_1w := Some 20%float |} ] in
  ∃ h records,
    transform_row sample_round sample_str sliced_df = Return (h, records)
    ∧ length records = 1%nat
    ∧ length (sink_sent (write_to_feature_store accepting_store h records).1)
      = 1%nat.
Proof.
  intros sliced_df.
  destruct (transform_row sample_round sample_str sliced_df)
    as [[h records]|e] eqn:Heq; [|by vm_compute in Heq].
  exists h, records. split; [done|].
  destruct (proj2 (falsy_keys_are_skipped sample_round sample_str
                     accepting_store sliced_df) h records Heq)
    as (Hrecords & Hsent & _).
  split; [exact Hrecords|exact Hsent].
Defined.

(** ** The extractor when no two records share the latest event time *)

Lemma filter_none {A} (P : A → Prop) `{!∀ x, Decision (P x)} (l : list A) :
  (∀ x, x ∈ l → ¬ P x) → filter P l = [].
Proof.
  induction l as [|x l IH]; intros Hl; [done|].
  rewrite filter_cons, decide_False by (apply Hl; by left).
  apply IH. intros y ?. apply Hl. by right.
Qed.

Lemma filter_none_inv {A} (P : A → Prop) `{!∀ x, Decision (P x)}
    (l : list A) x :
  length (filter P l) = 0%nat → x ∈ l → ¬ P x.
Proof.
  intros Hlen Hx HP.
  assert (Hin : x ∈ filter P l) by by apply list_elem_of_filter.
  destruct (filter P l); [by inv Hin|done].
Qed.

Lemma dense_rank_unique_top {A} (order : A → option Z) (d : A) (t : list A) :
  (∀ x, x ∈ t → order x ≠ order d) →
  filter (λ rr, rr.2 = 1) (dense_rank order (d :: t)) = [(d, 1)].
Proof.
  intros Ht. simpl. rewrite filter_cons, decide_True by done. f_equal.
  destruct t as [|x t]; [done|]. simpl.
  rewrite decide_False by (apply Ht; by left).
  rewrite filter_cons, decide_False by done.
  apply filter_none. intros [r q] Hin%dense_rank_from_ge. simpl. lia.
Qed.

(** The rows of rank 1 of a card whose latest event time is that of [d]
    and of no other record. *)
Lemma sorted_df_unique_latest (ds : list Derived) (k : option Z) (d : Derived) :
  d ∈ ds → d_cc_num d = k →
  (∀ d', d' ∈ ds → d_cc_num d' = k →
         asc (d_datetime d') (d_datetime d) = true) →
  length (filter (λ x, d_datetime x = d_datetime d)
                 (partition_of d_cc_num k ds)) = 1%nat →
  filter (λ rr, rr.2 = 1) (sorted_df k ds) = [(d, 1)].
Proof.
  intros Hd Hk Hlatest Hone. unfold sorted_df.
  set (le := λ a b : Derived, desc (d_datetime a) (d_datetime b)).
  set (l := sort_by le (partition_of d_cc_num k ds)).
  assert (Hperm : l ≡ₚ partition_of d_cc_num k ds) by apply sort_by_perm.
  assert (Hsorted : ordered le l).
  { apply sort_by_ordered; unfold le, desc; eauto using asc_total, asc_trans. }
  assert (Hin : d ∈ l).
  { rewrite Hperm. by apply elem_of_partition_of. }
  assert (Hmax : ∀ x, x ∈ l → asc (d_datetime x) (d_datetime d) = true).
  { intros x Hx. rewrite Hperm in Hx.
    apply elem_of_partition_of in Hx as [? ?]. by apply Hlatest. }
  rewrite <-Hperm in Hone. clearbody l. clear Hperm.
  destruct l as [|h t]; [by inv Hin|].
  apply StronglySorted_inv in Hsorted as [_ Hh].
  rewrite Forall_forall in Hh.
  assert (Hhd : d_datetime h = d_datetime d).
  { apply asc_antisym; [apply Hmax; by left|].
    apply elem_of_cons in Hin as [->|Hin]; [apply asc_refl|].
    by apply Hh in Hin. }
  rewrite filter_cons, decide_True in Hone by done.
  assert (Ht : ∀ x, x ∈ t → d_datetime x ≠ d_datetime d).
  { intros x Hx.
    apply (filter_none_inv (λ y, d_datetime y = d_datetime d) t x); [|done].
    simpl in Hone. lia. }
  apply elem_of_cons in Hin as [->|Hin]; [|by apply Ht in Hin].
  by apply dense_rank_unique_top.
Qed.

Lemma bind_singletons {A B} (P : A → B → Prop) (g : A → list B) (ks : list A) :
  (∀ k, k ∈ ks → ∃ d, g k = [d] ∧ P k d) → Forall2 P ks (ks ≫= g).
Proof.
  induction ks as [|k ks IH]; intros Hks; [constructor|].
  rewrite bind_cons. destruct (Hks k) as (d & -> & HP); [by left|].
  simpl. constructor; [done|]. apply IH. intros k' ?. apply Hks. by right.
Qed.

(** When, for every card, the latest event time is that of one record
    only, [group_by_card_number] returns exactly one row per distinct
    [cc_num]: the selected columns of that latest record. *)
Theorem one_row_per_card_without_ties (ds : list Derived) :
  (∀ k, k ∈ partition_keys d_cc_num ds →
     ∃ d, d ∈ ds ∧ d_cc_num d = k
       ∧ (∀ d', d' ∈ ds → d_cc_num d' = k →
                asc (d_datetime d') (d_datetime d) = true)
       ∧ length (filter (λ x, d_datetime x = d_datetime d)
                        (partition_of d_cc_num k ds)) = 1%nat) →
  Forall2 (λ k row,
             ∃ d, d ∈ ds ∧ d_cc_num d = k
               ∧ (∀ d', d' ∈ ds → d_cc_num d' = k →
                        asc (d_datetime d') (d_datetime d) = true)
               ∧ row = select_sliced d)
          (partition_keys d_cc_num ds) (group_by_card_number ds).
Proof.
  intros Hunique. unfold group_by_card_number, grouped_df.
  apply Forall2_fmap_r.
  apply (bind_singletons
    (λ k d, ∃ d0, d0 ∈ ds ∧ d_cc_num d0 = k
       ∧ (∀ d', d' ∈ ds → d_cc_num d' = k →
                asc (d_datetime d') (d_datetime d0) = true)
       ∧ select_sliced d = select_sliced d0)).
  intros k Hk. destruct (Hunique k Hk) as (d & Hd & Hkd & Hlatest & Hone).
  exists d. split; [|by eauto 10].
  by rewrite (sorted_df_unique_latest ds k d).
Qed.

(** The three purchases: one card, one row. *)
Lemma one_row_per_card_without_ties_witness :
  Forall2 (λ k row, s_cc_num row = k)
          (partition_keys d_cc_num (aggregate_features three_purchases))
          (group_by_card_number (aggregate_features three_purchases)).
Proof.
  eapply Forall2_impl.
  - apply (one_row_per_card_without_ties (aggregate_features three_purchases)).
    intros k Hk. apply list_elem_of_In in Hk. vm_compute in Hk.
    destruct Hk as [<-|[]].
    exists (outer_select (inner_select three_purchases
                            (purchase (minutes 615) 7 30))).
    split_and!.
    + elem_of_by_evaluation.
    + reflexivity.
    + intros d' Hd' _. apply list_elem_of_In in Hd'. vm_compute in Hd'.
      destruct Hd' as [<-|[<-|[<-|[]]]]; reflexivity.
    + by vm_compute.
  - intros k row (d & _ & <- & _ & ->). reflexivity.
Defined.

(** * Further properties of the job *)

(** ** What [group_by_card_number] selects *)

Section DenseRankOne.
Context {A : Type} (order : A → option Z).

Lemma elem_of_dense_rank_from prev rank l r q :
  (r, q) ∈ dense_rank_from order prev rank l → r ∈ l.
Proof.
  revert prev rank. induction l as [|x l IH]; intros prev rank Hin.
  - by inv Hin.
  - simpl in Hin. apply elem_of_cons in Hin as [[= -> _]|Hin]; [by left|].
    right. by eapply IH.
Qed.

(** A row keeps the rank the ranking started with only while the order
    value has not changed. *)
Lemma dense_rank_from_same prev rank l r :
  (r, rank) ∈ dense_rank_from order prev rank l → order r = prev.
Proof.
  revert prev. induction l as [|x l IH]; intros prev Hin.
  - by inv Hin.
  - simpl in Hin. destruct (decide (order x = prev)) as [Hx|Hx].
    + apply elem_of_cons in Hin as [[= -> ]|Hin]; [done|].
      rewrite <-Hx. by apply IH.
    + apply elem_of_cons in Hin as [[= _ Hrank]|Hin]; [lia|].
      apply dense_rank_from_ge in Hin. lia.
Qed.

Lemma dense_rank_one l r :
  (r, 1) ∈ dense_rank order l →
  ∃ h t, l = h :: t ∧ r ∈ l ∧ order r = order h.
Proof.
  destruct l as [|h t]; simpl; [by intros Hin; inv Hin|].
  intros Hin. exists h, t. split; [done|].
  apply elem_of_cons in Hin as [[= ->]|Hin]; [by split; [left|]|].
  split.
  - right. by eapply elem_of_dense_rank_from.
  - by eapply dense_rank_from_same.
Qed.
End DenseRankOne.

Lemma grouped_df_is_latest (ds : list Derived) (d : Derived) :
  d ∈ grouped_df ds →
  d ∈ ds ∧ ∀ d', d' ∈ ds → d_cc_num d' = d_cc_num d →
                 asc (d_datetime d') (d_datetime d) = true.
Proof.
  unfold grouped_df. intros (k & Hd & _)%list_elem_of_bind.
  apply list_elem_of_fmap in Hd as ([d0 q] & -> & Hd). simpl.
  apply list_elem_of_filter in Hd as [Hq Hd]. simpl in Hq. subst q.
  unfold sorted_df in Hd.
  set (le := λ a b : Derived, desc (d_datetime a) (d_datetime b)) in *.
  assert (Hsorted : ordered le (sort_by le (partition_of d_cc_num k ds))).
  { apply sort_by_ordered; unfold le, desc; eauto using asc_total, asc_trans. }
  apply dense_rank_one in Hd as (h & t & Heq & Hin & Horder).
  assert (Hd0 : d_cc_num d0 = k ∧ d0 ∈ ds).
  { by apply elem_of_sort_by, elem_of_partition_of in Hin. }
  destruct Hd0 as [Hk Hd0]. split; [done|]. intros d' Hd' Hk'.
  assert (Hin' : d' ∈ sort_by le (partition_of d_cc_num k ds)).
  { apply elem_of_sort_by, elem_of_partition_of. split; [congruence|done]. }
  rewrite Heq in Hsorted, Hin'. rewrite Horder.
  apply StronglySorted_inv in Hsorted as [_ Hh].
  apply elem_of_cons in Hin' as [->|Hin']; [apply asc_refl|].
  rewrite Forall_forall in Hh. by apply Hh in Hin'.
Qed.

Lemma group_by_card_number_is_latest (ds : list Derived) (row : Sliced) :
  row ∈ group_by_card_number ds →
  ∃ d, d ∈ ds
    ∧ (∀ d', d' ∈ ds → d_cc_num d' = d_cc_num d →
             asc (d_datetime d') (d_datetime d) = true)
    ∧ row = select_sliced d.
Proof.
  unfold group_by_card_number. rewrite list_elem_of_fmap.
  intros (d & -> & [Hd Hlatest]%grouped_df_is_latest). eauto.
Qed.

(** [group_by_card_number] returns the selected columns of exactly those
    records that no record of the same card is later than. *)
Theorem group_by_card_number_selects_the_latest (ds : list Derived)
    (row : Sliced) :
  row ∈ group_by_card_number ds ↔
  ∃ d, d ∈ ds
    ∧ (∀ d', d' ∈ ds → d_cc_num d' = d_cc_num d →
             asc (d_datetime d') (d_datetime d) = true)
    ∧ row = select_sliced d.
Proof.
  split; [apply group_by_card_number_is_latest|].
  intros (d & Hd & Hlatest & ->). unfold group_by_card_number.
  apply list_elem_of_fmap. exists d. split; [done|].
  by apply latest_in_grouped_df.
Qed.

(** The cards of the rows that [group_by_card_number] returns are the cards
    of its input: no card is lost and none is made up. *)
Theorem group_by_card_number_keeps_every_card (ds : list Derived)
    (k : option Z) :
  (∃ row, row ∈ group_by_card_number ds ∧ s_cc_num row = k) ↔
  (∃ d, d ∈ ds ∧ d_cc_num d = k).
Proof.
  split.
  - intros (row & Hrow & <-).
    apply group_by_card_number_is_latest in Hrow as (d & Hd & _ & ->).
    eauto.
  - intros (d & Hd & <-).
    set (le := λ a b : Derived, desc (d_datetime a) (d_datetime b)).
    assert (Hin : d ∈ sort_by le (partition_of d_cc_num (d_cc_num d) ds)).
    { by apply elem_of_sort_by, elem_of_partition_of. }
    destruct (sort_by le (partition_of d_cc_num (d_cc_num d) ds))
      as [|h t] eqn:Heq; [by inv Hin|].
    assert (Hh : h ∈ sort_by le (partition_of d_cc_num (d_cc_num d) ds))
      by (rewrite Heq; by left).
    apply elem_of_sort_by, elem_of_partition_of in Hh as [Hk Hh].
    exists (select_sliced h). split; [|done].
    unfold group_by_card_number, grouped_df.
    apply list_elem_of_fmap. exists h. split; [done|].
    apply list_elem_of_bind. exists (d_cc_num d). split.
    + apply list_elem_of_fmap. exists (h, 1). split; [done|].
      apply list_elem_of_filter. split; [done|].
      unfold sorted_df. fold le. rewrite Heq. by left.
    + apply elem_of_remove_dups, list_elem_of_fmap. eauto.
Qed.

(** In a run of the job the rows selected for one card are all the same:
    records of a card with the same event time have the same windows, so a
    tie at the latest event time repeats a row and never yields two
    different ones. *)
Theorem rows_of_one_card_are_equal (transactions_df : list Transaction)
    (row1 row2 : Sliced) :
  row1 ∈ group_by_card_number (aggregate_features transactions_df) →
  row2 ∈ group_by_card_number (aggregate_features transactions_df) →
  s_cc_num row1 = s_cc_num row2 →
  row1 = row2.
Proof.
  intros (d1 & Hd1 & Hl1 & ->)%group_by_card_number_is_latest.
  intros (d2 & Hd2 & Hl2 & ->)%group_by_card_number_is_latest.
  simpl. intros Hk.
  assert (Ht : d_datetime d1 = d_datetime d2).
  { apply asc_antisym; [by apply Hl2|by apply Hl1]. }
  apply elem_of_aggregate_features in Hd1 as (cur1 & _ & ->).
  apply elem_of_aggregate_features in Hd2 as (cur2 & _ & ->).
  unfold d_cc_num, d_datetime, select_sliced in *. simpl in *.
  unfold d_cc_num, frame. simpl. by rewrite Hk, Ht.
Qed.

(** Two purchases of one card at 10:00 sharp: two rows, equal. *)
Lemma rows_of_one_card_are_equal_witness :
  ∃ row1 row2,
    group_by_card_number (aggregate_features tied_purchases) = [row1; row2]
    ∧ row1 = row2.
Proof.
  eexists _, _. split; [by vm_compute|].
  apply (rows_of_one_card_are_equal tied_purchases).
  - elem_of_by_evaluation.
  - elem_of_by_evaluation.
  - reflexivity.
Defined.

(** ** Cards, later transactions and input order in [aggregate_features] *)

Lemma filter_partitions {A B} (P : B → Prop) `{!∀ x, Decision (P x)}
    (g : A → list B) (ks : list A) :
  filter P (ks ≫= g) = ks ≫= (λ k, filter P (g k)).
Proof.
  induction ks as [|k ks IH]; [done|].
  by rewrite !bind_cons, filter_app, IH.
Qed.

Lemma bind_only {A B} `{!EqDecision A} (g : A → list B) (k : A) (ks : list A) :
  NoDup ks →
  ks ≫= (λ k', if decide (k' = k) then g k else [])
  = if decide (k ∈ ks) then g k else [].
Proof.
  induction 1 as [|k' ks Hk' Hks IH]; [done|].
  rewrite bind_cons, IH. destruct (decide (k' = k)) as [->|Hne].
  - rewrite decide_False by done. rewrite decide_True by by left.
    by rewrite app_nil_r.
  - simpl. destruct (decide (k ∈ ks)).
    + rewrite decide_True by by right. done.
    + rewrite decide_False; [done|]. by intros [?|?]%elem_of_cons.
Qed.

Lemma filter_all {A} (P : A → Prop) `{!∀ x, Decision (P x)} (l : list A) :
  (∀ x, x ∈ l → P x) → filter P l = l.
Proof.
  induction l as [|x l IH]; intros Hl; [done|].
  rewrite filter_cons, decide_True by (apply Hl; by left).
  f_equal. apply IH. intros y ?. apply Hl. by right.
Qed.

Lemma remove_dups_constant {A} `{!EqDecision A} (k : A) (l : list A) :
  (∀ x, x ∈ l → x = k) → remove_dups l = if l is [] then [] else [k].
Proof.
  induction l as [|x l IH]; intros Hl; [done|]. simpl.
  assert (x = k) as -> by (apply Hl; by left).
  rewrite IH by (intros y ?; apply Hl; by right).
  destruct (decide_rel elem_of k l) as [Hin|Hnin].
  - destruct l; [by inv Hin|done].
  - destruct l as [|y l]; [done|]. exfalso. apply Hnin.
    assert (y = k) as -> by (apply Hl; right; by left). by left.
Qed.

Lemma window_partition_of_card k rows :
  window_partition k (partition_of cc_num k rows) = window_partition k rows.
Proof.
  unfold window_partition. f_equal. apply filter_all.
  by intros r [? _]%elem_of_partition_of.
Qed.

(** The records of a card are computed from the transactions of that card
    alone: keeping the records of card [k] after the query is the same as
    running the query on the transactions of card [k]. *)
Theorem cards_do_not_interact (transactions_df : list Transaction)
    (k : option Z) :
  filter (λ d, d_cc_num d = k) (aggregate_features transactions_df)
  = aggregate_features (partition_of cc_num k transactions_df).
Proof.
  unfold aggregate_features at 1. rewrite filter_partitions.
  erewrite list_bind_ext; [|intros k'|done].
  2:{ instantiate (1 := λ k', if decide (k' = k)
        then (λ cur, outer_select
                (inner_select (window_partition k transactions_df) cur))
             <$> window_partition k transactions_df
        else []). simpl.
      destruct (decide (k' = k)) as [->|Hne].
      - apply filter_all. intros d (cur & -> & Hcur)%list_elem_of_fmap.
        by apply elem_of_window_partition in Hcur as [? _].
      - apply filter_none. intros d (cur & -> & Hcur)%list_elem_of_fmap.
        apply elem_of_window_partition in Hcur as [? _].
        unfold d_cc_num. simpl. congruence. }
  rewrite (bind_only
    (λ k, (λ cur, outer_select
             (inner_select (window_partition k transactions_df) cur))
          <$> window_partition k transactions_df))
    by apply NoDup_remove_dups.
  unfold aggregate_features, partition_keys.
  rewrite (remove_dups_constant k
             (cc_num <$> partition_of cc_num k transactions_df)).
  2:{ intros x (r & -> & Hr)%list_elem_of_fmap.
      by apply elem_of_partition_of in Hr as [? _]. }
  destruct (decide (k ∈ remove_dups (cc_num <$> transactions_df)))
    as [Hk|Hk].
  - apply elem_of_remove_dups, list_elem_of_fmap in Hk as (r & -> & Hr).
    assert (Hin : r ∈ partition_of cc_num (cc_num r) transactions_df)
      by by apply elem_of_partition_of.
    destruct (partition_of cc_num (cc_num r) transactions_df) eqn:Heq;
      [by inv Hin|].
    rewrite fmap_cons, bind_cons. simpl. rewrite app_nil_r, <-Heq.
    by rewrite window_partition_of_card.
  - destruct (partition_of cc_num k transactions_df) as [|r l] eqn:Heq;
      [done|]. exfalso. apply Hk.
    assert (Hin : r ∈ partition_of cc_num k transactions_df)
      by (rewrite Heq; by left).
    apply elem_of_partition_of in Hin as [<- Hr].
    apply elem_of_remove_dups, list_elem_of_fmap. eauto.
Qed.

Lemma window_cons_outside delta x rows key t :
  ¬ (cc_num x = key ∧ closed_interval (t - delta) t (datetime x)) →
  window delta (x :: rows) key t = window delta rows key t.
Proof. intros Hx. unfold window. by rewrite filter_cons, decide_False. Qed.

Lemma closed_interval_short_long t o :
  closed_interval (t - INTERVAL_10_MINUTE) t o = true →
  closed_interval (t - INTERVAL_1_WEEK) t o = true.
Proof.
  unfold closed_interval, INTERVAL_10_MINUTE, INTERVAL_1_WEEK.
  destruct o; [|done]. rewrite !andb_true_iff. intros [? ?]. split; lia.
Qed.

(** A record is computed from the transactions of its card in the week that
    ends at its event time: a further transaction that is of another card,
    later, or more than a week older leaves the record as it is. *)
Theorem transaction_outside_the_week_changes_nothing
    (transactions_df : list Transaction) (x : Transaction) (d : Derived)
    (t : Z) :
  d ∈ aggregate_features transactions_df →
  d_datetime d = Some t →
  ¬ (cc_num x = d_cc_num d
     ∧ closed_interval (t - INTERVAL_1_WEEK) t (datetime x)) →
  d ∈ aggregate_features (x :: transactions_df).
Proof.
  intros (cur & Hcur & ->)%elem_of_aggregate_features Ht Hx.
  unfold d_datetime, d_cc_num in *. simpl in *.
  apply elem_of_aggregate_features. exists cur. split; [by right|].
  f_equal. unfold inner_select.
  rewrite !(frame_window _ _ _ t Ht).
  rewrite (window_cons_outside INTERVAL_1_WEEK) by done.
  rewrite (window_cons_outside INTERVAL_10_MINUTE); [done|].
  intros [Hk Hin]. apply Hx. split; [done|].
  apply Is_true_true, closed_interval_short_long. by apply Is_true_true.
Qed.

(** The record at 10:05 of two purchases, and a third purchase at 10:15. *)
Lemma transaction_outside_the_week_changes_nothing_witness :
  let d := outer_select
             (inner_select [purchase (minutes 600) 7 10;
                            purchase (minutes 605) 7 20]
                (purchase (minutes 605) 7 20)) in
  d ∈ aggregate_features [purchase (minutes 615) 7 30;
                          purchase (minutes 600) 7 10;
                          purchase (minutes 605) 7 20].
Proof.
  apply (transaction_outside_the_week_changes_nothing
           [purchase (minutes 600) 7 10; purchase (minutes 605) 7 20]
           (purchase (minutes 615) 7 30) _ (minutes 605)).
  - elem_of_by_evaluation.
  - reflexivity.
  - intros [_ Hin]. vm_compute in Hin. exact Hin.
Defined.

(** Two orderings of the same rows are the same list when no two different
    rows tie. *)
Lemma ordered_unique {A} (le : A → A → bool) (l1 l2 : list A) :
  ordered le l1 → ordered le l2 → l1 ≡ₚ l2 →
  (∀ x y, x ∈ l1 → y ∈ l1 → le x y = true → le y x = true → x = y) →
  l1 = l2.
Proof.
  intros Hs1. revert l2. induction Hs1 as [|a l1 Hs1 IH Ha];
    intros l2 Hs2 Hperm Htie.
  { by apply Permutation_nil_l in Hperm. }
  destruct Hs2 as [|b l2 Hs2 Hb].
  { by apply Permutation_nil_r in Hperm. }
  rewrite Forall_forall in Ha, Hb.
  assert (Hab : a = b).
  { assert (Ha2 : a ∈ b :: l2) by (rewrite <-Hperm; by left).
    assert (Hb1 : b ∈ a :: l1) by (rewrite Hperm; by left).
    apply elem_of_cons in Ha2 as [?|Ha2]; [done|].
    apply elem_of_cons in Hb1 as [?|Hb1]; [done|].
    apply Htie; [by left|by right|by apply Ha|by apply Hb]. }
  subst b. f_equal. apply IH; [done|by apply Permutation_cons_inv in Hperm|].
  intros x y Hx Hy. apply Htie; by right.
Qed.

Lemma partition_keys_perm_input {A} (key : A → option Z) (l1 l2 : list A) :
  l1 ≡ₚ l2 → partition_keys key l1 ≡ₚ partition_keys key l2.
Proof.
  intros Hperm. unfold partition_keys.
  apply NoDup_Permutation; [apply NoDup_remove_dups..|].
  intros k. by rewrite !elem_of_remove_dups, Hperm.
Qed.

Lemma window_partition_input_order k (l1 l2 : list Transaction) :
  l1 ≡ₚ l2 →
  (∀ r1 r2, r1 ∈ l1 → r2 ∈ l1 → cc_num r1 = cc_num r2 →
            datetime r1 = datetime r2 → r1 = r2) →
  window_partition k l1 = window_partition k l2.
Proof.
  intros Hperm Htie. unfold window_partition.
  apply (ordered_unique (λ a b, asc (datetime a) (datetime b))).
  - apply sort_by_ordered; eauto using asc_total, asc_trans.
  - apply sort_by_ordered; eauto using asc_total, asc_trans.
  - rewrite !sort_by_perm. unfold partition_of. by rewrite Hperm.
  - intros x y [Hx ?]%elem_of_sort_by%elem_of_partition_of
                [Hy ?]%elem_of_sort_by%elem_of_partition_of Hxy Hyx.
    apply Htie; [done|done|congruence|by apply asc_antisym].
Qed.

(** The order of the input rows does not matter: when no two different
    transactions of a card have the same event time, reading the same
    transactions in another order yields the same records. *)
Theorem aggregate_features_input_order
    (transactions_df transactions_df' : list Transaction) :
  transactions_df ≡ₚ transactions_df' →
  (∀ r1 r2, r1 ∈ transactions_df → r2 ∈ transactions_df →
            cc_num r1 = cc_num r2 → datetime r1 = datetime r2 → r1 = r2) →
  aggregate_features transactions_df ≡ₚ aggregate_features transactions_df'.
Proof.
  intros Hperm Htie. unfold aggregate_features.
  rewrite (partition_keys_perm_input cc_num _ _ Hperm).
  erewrite list_bind_ext; [reflexivity| |reflexivity].
  intros k. simpl.
  by rewrite (window_partition_input_order k _ _ Hperm Htie).
Qed.

(** The three purchases, read latest first. *)
Lemma aggregate_features_input_order_witness :
  aggregate_features three_purchases
  ≡ₚ aggregate_features [purchase (minutes 615) 7 30;
                         purchase (minutes 605) 7 20;
                         purchase (minutes 600) 7 10].
Proof.
  apply aggregate_features_input_order.
  - exact (Permutation_rev three_purchases).
  - intros r1 r2 Hr1 Hr2 _ Ht.
    apply list_elem_of_In in Hr1, Hr2. vm_compute in Hr1, Hr2.
    destruct Hr1 as [<-|[<-|[<-|[]]]], Hr2 as [<-|[<-|[<-|[]]]];
      (reflexivity || (vm_compute in Ht; discriminate Ht)).
Defined.

(** ** How [transform_row] and the job end *)

Lemma record_contents_outcome float_round float_str (rows : list Sliced) :
  match record_contents float_round float_str rows with
  | Return _ =>
      Forall (λ row, truthy (s_cc_num row) = true →
                     is_Some (s_avg_amt_last_1w row)) rows
  | Raise e =>
      e = TypeError
      ∧ Exists (λ row, truthy (s_cc_num row) = true
                       ∧ s_avg_amt_last_1w row = None) rows
  end.
Proof.
  induction rows as [|row rows IH]; simpl; [constructor|].
  destruct (truthy (s_cc_num row)) eqn:Hk.
  - destruct (s_avg_amt_last_1w row) as [x|] eqn:Hx.
    + destruct (record_contents _ _ rows) as [l|e].
      * constructor; [by eauto|done].
      * destruct IH as [-> IH]. split; [done|]. by right.
    + split; [done|]. by left.
  - destruct (record_contents _ _ rows) as [l|e].
    + constructor; [by rewrite Hk|done].
    + destruct IH as [-> IH]. split; [done|]. by right.
Qed.

Lemma missing_mean_excludes (rows : list Sliced) :
  Forall (λ row, truthy (s_cc_num row) = true →
                 is_Some (s_avg_amt_last_1w row)) rows →
  Exists (λ row, truthy (s_cc_num row) = true
                 ∧ s_avg_amt_last_1w row = None) rows →
  False.
Proof.
  rewrite Forall_forall, Exists_exists.
  intros Hall (row & Hrow & Hk & Hx).
  destruct (Hall row Hrow Hk) as [x Hx']. congruence.
Qed.

Lemma transform_row_cases float_round float_str (sliced_df : list Sliced) :
  match transform_row float_round float_str sliced_df with
  | Return _ =>
      Forall (λ row, truthy (s_cc_num row) = true →
                     is_Some (s_avg_amt_last_1w row)) sliced_df
  | Raise e =>
      e = TypeError
      ∧ Exists (λ row, truthy (s_cc_num row) = true
                       ∧ s_avg_amt_last_1w row = None) sliced_df
  end.
Proof.
  pose proof (record_contents_outcome float_round float_str sliced_df) as Hc.
  pose proof (transform_row_contents float_round float_str sliced_df) as Hr.
  destruct (transform_row _ _ sliced_df) as [[h records]|e]; simpl in Hr;
    by rewrite <-Hr in Hc.
Qed.

(** [transform_row] returns its records when every row with a true
    [cc_num] has a one-week mean, and raises [TypeError], from [round], when
    one of them has none; it raises nothing else. *)
Theorem transform_row_outcome (float_round : double → Z → double)
    (float_str : double → string) (sliced_df : list Sliced) :
  ((∃ h records,
      transform_row float_round float_str sliced_df = Return (h, records)) ↔
   Forall (λ row, truthy (s_cc_num row) = true →
                  is_Some (s_avg_amt_last_1w row)) sliced_df)
  ∧ (transform_row float_round float_str sliced_df = Raise TypeError ↔
     Exists (λ row, truthy (s_cc_num row) = true
                    ∧ s_avg_amt_last_1w row = None) sliced_df)
  ∧ transform_row float_round float_str sliced_df ≠ Raise AssertionError.
Proof.
  pose proof (transform_row_cases float_round float_str sliced_df) as Hc.
  destruct (transform_row _ _ sliced_df) as [[h records]|e].
  - split_and!; [|split|done].
    + split; [done|]. eauto.
    + done.
    + intros Hbad. destruct (missing_mean_excludes _ Hc Hbad).
  - destruct Hc as [-> Hbad]. split_and!; [split|done|done].
    + by intros (h & records & ?).
    + intros Hall. destruct (missing_mean_excludes _ Hall Hbad).
Qed.

Lemma all_accepted (cs : list Z) :
  length (filter (λ c, c ≠ 200) cs) = 0%nat ↔ Forall (λ c, c = 200) cs.
Proof.
  induction cs as [|c cs IH]; [by split; [constructor|]|].
  rewrite filter_cons, Forall_cons. destruct (decide (c ≠ 200)) as [Hc|Hc].
  - split; [done|]. by intros [? _].
  - rewrite IH. split; [|by intros [_ ?]].
    intros ?. split; [|done]. by destruct (decide (c = 200)).
Qed.

(** How a run ends.  The rows are written to S3 in every case.  The run
    raises [TypeError], and then sends nothing to the feature store, exactly
    when a selected row with a true [cc_num] has no one-week mean.  It
    returns normally exactly when no such row exists, the selected rows
    with a true [cc_num] are [TOTAL_UNIQUE_USERS] in number, and the store
    answers every request with status 200. *)
Theorem run_spark_job_outcome (float_round : double → Z → double)
    (float_str : double → string) (w : World)
    (transactions_df : list Transaction) :
  let run := run_spark_job float_round float_str w transactions_df in
  let selected := group_by_card_number (aggregate_features transactions_df) in
  let missing_mean :=
    Exists (λ row, truthy (s_cc_num row) = true
                   ∧ s_avg_amt_last_1w row = None) selected in
  written_to_s3 run = aggregate_features transactions_df
  ∧ (result run = Raise TypeError ↔ missing_mean)
  ∧ (result run = Raise TypeError → sent run = [])
  ∧ (result run = Return () ↔
     ¬ missing_mean
     ∧ Z.of_nat (length (filter (λ row, truthy (s_cc_num row)) selected))
       = TOTAL_UNIQUE_USERS
     ∧ Forall (λ c, c = 200) (responses w (sent run))).
Proof.
  intros run selected missing_mean. subst run selected missing_mean.
  unfold run_spark_job.
  pose proof (transform_row_cases float_round float_str
    (group_by_card_number (aggregate_features transactions_df))) as Hall.
  destruct (transform_row _ _ _) as [[h records]|e] eqn:Heq; simpl.
  - assert (Hno : ¬ Exists (λ row, truthy (s_cc_num row) = true
        ∧ s_avg_amt_last_1w row = None)
        (group_by_card_number (aggregate_features transactions_df)))
      by (intros Hbad; destruct (missing_mean_excludes _ Hall Hbad)).
    destruct (sent_requests _ _ w _ _ _ Heq) as (contents & Hc & Hlen & _).
    apply record_contents_Return, Forall2_length in Hc.
    destruct (write_loop_counters w h records) as (Hn & Hs & Hf).
    pose proof (length_filter_split
      (responses w (sink_sent (write_loop w h records)))) as Hsplit.
    assert (Hresp : length (responses w (sink_sent (write_loop w h records)))
                    = length records).
    { unfold responses. by rewrite length_imap. }
    split_and!; [done| | |].
    + split; [|done]. intros Hr.
      pose proof (final_asserts_Raise (write_loop w h records)) as Hfa.
      rewrite Hr in Hfa. by specialize (Hfa ltac:(done)).
    + intros Hr.
      pose proof (final_asserts_Raise (write_loop w h records)) as Hfa.
      rewrite Hr in Hfa. by specialize (Hfa ltac:(done)).
    + rewrite final_asserts_Return, <-all_accepted. rewrite Hs, Hf.
      split.
      * intros [Hsucc Hfail]. split_and!; [done|lia|lia].
      * intros (_ & Hkept & Hfail). split; lia.
  - destruct Hall as [-> Hbad]. split_and!; [done|done|done|].
    split; [done|]. by intros [Hno _].
Qed.

(** A transaction whose amount did not parse has no one-week mean of its
    own: the run writes its row to S3 and ends in [TypeError]. *)
Lemma unparsed_amount_ends_the_run :
  let run :=
    run_spark_job sample_round sample_str accepting_store
      [ {| tid := Some "t1"; datetime := Some (minutes 600);
           cc_num := Some 7; amount := None; fraud_label := Some "0" |} ] in
  length (written_to_s3 run) = 1%nat
  ∧ sent run = []
  ∧ result run = Raise TypeError.
Proof. by vm_compute. Qed.

(** ** What [write_to_feature_store] leaves in the records *)

Section WriteLoopHeap.
Variable w : World.

(** After the loop every record that was sent ends with its time feature:
    the lists of the caller have been changed in place. *)
Lemma write_loop_heap (h : heap Feature) (records : list nat) :
  NoDup records → (∀ a, a ∈ records → (a < length h)%nat) →
  ∀ n a, records !! n = Some a →
    list_get (sink_heap (write_loop w h records)) a
    = list_get h a ++ [event_time_feature w n].
Proof.
  induction records as [|a' records IH] using rev_ind; [done|].
  intros [Hnd [Ha' _]]%NoDup_app Hrange n a Hn.
  assert (Hnew : a' ∉ records) by (intros ?; eapply Ha'; [done|by left]).
  assert (Hrange' : ∀ b, b ∈ records → (b < length h)%nat).
  { intros b Hb. apply Hrange, elem_of_app. by left. }
  destruct (write_loop_sent w h records Hnd Hrange')
    as (Hsent & Hlen & Hkeep).
  rewrite write_loop_snoc. set (st := write_loop w h records) in *. simpl.
  assert (Hcalls : length (sink_sent st) = length records)
    by by rewrite Hsent, length_imap.
  apply lookup_app_Some in Hn as [Hn|[Hge Hn]].
  - assert (Hne : a' ≠ a).
    { intros ->. apply Hnew. by apply list_elem_of_lookup_2 in Hn. }
    rewrite list_get_append_ne by done. by apply IH.
  - apply list_lookup_singleton_Some in Hn as [Hn <-].
    rewrite list_get_append.
    + unfold list_get at 1. rewrite Hkeep by done. fold (list_get h a').
      rewrite Hcalls. do 3 f_equal. lia.
    + rewrite Hlen. apply Hrange, elem_of_app. right. by left.
Qed.
End WriteLoopHeap.

(** [write_to_feature_store] appends the time feature to the caller's
    records and leaves it there.  Publishing the records of [transform_row]
    a second time therefore sends each record with the time feature of the
    first call followed by that of the second: two features named
    [trans_time]. *)
Theorem second_call_repeats_the_time_feature
    (float_round : double → Z → double) (float_str : double → string)
    (w1 w2 : World) (sliced_df : list Sliced) (h : heap Feature)
    (records : list nat) :
  transform_row float_round float_str sliced_df = Return (h, records) →
  let st1 := (write_to_feature_store w1 h records).1 in
  let st2 := (write_to_feature_store w2 (sink_heap st1) records).1 in
  (∀ n a, records !! n = Some a →
     list_get (sink_heap st1) a
     = list_get h a ++ [event_time_feature w1 n])
  ∧ ∀ n request, sink_sent st2 !! n = Some request →
      ∃ request1, sink_sent st1 !! n = Some request1
        ∧ request = request1 ++ [event_time_feature w2 n]
        ∧ count_named "trans_time" request = 2%nat.
Proof.
  intros Heq. simpl.
  destruct (transform_row_fresh _ _ _ _ _ Heq) as [Hnd Hrange].
  pose proof (write_loop_heap w1 h records Hnd Hrange) as Hheap.
  split; [done|]. intros n request Hn.
  destruct (write_loop_sent w1 h records Hnd Hrange) as (Hsent1 & Hlen1 & _).
  destruct (write_loop_sent w2 (sink_heap (write_loop w1 h records)) records)
    as (Hsent2 & _); [done|by rewrite Hlen1|].
  rewrite Hsent2, list_lookup_imap in Hn.
  destruct (records !! n) as [a|] eqn:Ha; [|done]. injection Hn as <-.
  destruct (sent_request_shape _ _ w1 _ _ _ n
              (list_get h a ++ [event_time_feature w1 n]) Heq)
    as (row & x & _ & _ & _ & Hshape).
  { by rewrite Hsent1, list_lookup_imap, Ha. }
  exists (list_get h a ++ [event_time_feature w1 n]). split_and!.
  - by rewrite Hsent1, list_lookup_imap, Ha.
  - by rewrite (Hheap n a Ha).
  - rewrite (Hheap n a Ha), Hshape. done.
Qed.

(** The three purchases, published twice. *)
Lemma second_call_repeats_the_time_feature_witness :
  ∃ h records,
    transform_row sample_round sample_str
      (group_by_card_number (aggregate_features three_purchases))
    = Return (h, records)
    ∧ sink_sent
        (write_to_feature_store accepting_store
           (sink_heap (write_to_feature_store accepting_store h records).1)
           records).1
      = [ [ {| ValueAsString := PyStr "7"; FeatureName := "cc_num" |};
            {| ValueAsString := PyStr "3";
               FeatureName := "num_trans_last_1w" |};
            {| ValueAsString := PyStr "20.0";
               FeatureName := "avg_amt_last_1w" |};
            {| ValueAsString := PyStr "1619447604";
               FeatureName := "trans_time" |};
            {| ValueAsString := PyStr "1619447604";
               FeatureName := "trans_time" |} ] ]
    ∧ ∀ n request,
        sink_sent
          (write_to_feature_store accepting_store
             (sink_heap (write_to_feature_store accepting_store h records).1)
             records).1 !! n = Some request →
        count_named "trans_time" request = 2%nat.
Proof.
  destruct (transform_row sample_round sample_str
              (group_by_card_number (aggregate_features three_purchases)))
    as [[h records]|e] eqn:Heq; [|by vm_compute in Heq].
  exists h, records. split; [done|]. split.
  - vm_compute in Heq. injection Heq as <- <-. by vm_compute.
  - intros n request Hn.
    destruct (proj2 (second_call_repeats_the_time_feature sample_round
                       sample_str accepting_store accepting_store _ h records
                       Heq) n request Hn)
      as (_ & _ & _ & Hcount).
    exact Hcount.
Defined.

(** ** The time feature *)

Lemma round_half_even_cases (t : Q) :
  let f := Qfloor t in
  (round_half_even t = f ∧ (t - inject_Z f <= 1 # 2)%Q)
  ∨ (round_half_even t = f + 1 ∧ (1 # 2 <= t - inject_Z f)%Q).
Proof.
  intros f. subst f. unfold round_half_even.
  destruct (Qcompare_spec (t - inject_Z (Qfloor t)) (1 # 2)) as [He|Hl|Hg].
  - destruct (Z.even (Qfloor t)); [left|right]; (split; [done|]);
      rewrite He; apply Qle_refl.
  - left. split; [done|]. by apply Qlt_le_weak.
  - right. split; [done|]. by apply Qlt_le_weak.
Qed.

Lemma round_half_even_close (t : Q) :
  (t - (1 # 2) <= inject_Z (round_half_even t)
   ∧ inject_Z (round_half_even t) <= t + (1 # 2))%Q.
Proof.
  pose proof (Qfloor_le t) as Hlo. pose proof (Qlt_floor t) as Hhi.
  rewrite inject_Z_plus in Hhi. change (inject_Z 1) with 1%Q in Hhi.
  destruct (round_half_even_cases t) as [[-> Hr]|[-> Hr]];
    rewrite ?inject_Z_plus; change (inject_Z 1) with 1%Q; split; lra.
Qed.

Lemma round_half_even_mono (t t' : Q) :
  (t <= t')%Q → round_half_even t ≤ round_half_even t'.
Proof.
  intros Hle. pose proof (Qfloor_resp_le _ _ Hle) as Hf.
  destruct (decide (Qfloor t = Qfloor t')) as [Heq|Hne].
  - unfold round_half_even. rewrite <-Heq.
    destruct (Qcompare_spec (t - inject_Z (Qfloor t)) (1 # 2)) as [He|Hl|Hg],
             (Qcompare_spec (t' - inject_Z (Qfloor t)) (1 # 2))
               as [He'|Hl'|Hg'];
      try lia; try (destruct (Z.even (Qfloor t)); lia); exfalso; lra.
  - destruct (round_half_even_cases t) as [[-> _]|[-> _]],
             (round_half_even_cases t') as [[-> _]|[-> _]]; lia.
Qed.

(** The feature [trans_time] holds the whole second nearest to the clock
    reading, at most half a second away from it, and a later reading never
    gives an earlier second. *)
Theorem trans_time_is_the_nearest_second (w : World) (n m : nat) :
  ∃ k k' : Z,
    event_time_feature w n
    = {| ValueAsString := PyStr (pretty k); FeatureName := "trans_time" |}
    ∧ event_time_feature w m
      = {| ValueAsString := PyStr (pretty k'); FeatureName := "trans_time" |}
    ∧ (time_time w n - (1 # 2) <= inject_Z k)%Q
    ∧ (inject_Z k <= time_time w n + (1 # 2))%Q
    ∧ ((time_time w n <= time_time w m)%Q → k ≤ k').
Proof.
  exists (round_half_even (time_time w n)), (round_half_even (time_time w m)).
  destruct (round_half_even_close (time_time w n)) as [Hlo Hhi].
  split_and!; try done. apply round_half_even_mono.
Qed.

(** ** The notebook's check of the feature group *)

Section CheckFeatureGroup.
Variable get_record : nat → string → string → GetRecordResponse.

Lemma check_loop (cc_nums : list Z) : ∀ (n0 : nat) (s0 f0 : Z),
  foldl (check_record get_record) (n0, s0, f0) cc_nums
  = ((n0 + length cc_nums)%nat,
     s0 + Z.of_nat (length (filter (λ b, b = true) (lookups get_record n0 cc_nums))),
     f0 + Z.of_nat (length (filter (λ b, b = false) (lookups get_record n0 cc_nums)))).
Proof.
  induction cc_nums as [|cc cc_nums IH]; intros n0 s0 f0; simpl.
  { apply (f_equal2 pair); [apply (f_equal2 pair)|]; lia. }
  unfold lookups. rewrite imap_cons, !filter_cons, Nat.add_0_r.
  assert (Hshift :
    imap ((λ i cc_num,
             found (get_record (n0 + i)%nat FEATURE_GROUP (pretty cc_num)))
          ∘ S) cc_nums
    = lookups get_record (S n0) cc_nums).
  { apply imap_ext. intros i x _. simpl. do 2 f_equal. lia. }
  rewrite Hshift.
  destruct (found (get_record n0 FEATURE_GROUP (pretty cc))) eqn:Hfound.
  - rewrite decide_True, decide_False by done. rewrite IH. simpl.
    apply (f_equal2 pair); [apply (f_equal2 pair)|]; simpl; lia.
  - rewrite decide_False, decide_True by done. rewrite IH. simpl.
    apply (f_equal2 pair); [apply (f_equal2 pair)|]; simpl; lia.
Qed.

Lemma true_and_false (bs : list bool) :
  (length (filter (λ b, b = true) bs)
   + length (filter (λ b, b = false) bs))%nat = length bs.
Proof.
  induction bs as [|[] bs IH]; [done|..]; rewrite !filter_cons; simpl; lia.
Qed.

Lemma all_true (bs : list bool) :
  length (filter (λ b, b = true) bs) = length bs ↔ Forall (λ b, b = true) bs.
Proof.
  pose proof (true_and_false bs) as Hsum. split.
  - intros Hlen. apply Forall_forall. intros [] Hb; [done|].
    assert (Hin : false ∈ filter (λ b, b = false) bs)
      by by apply list_elem_of_filter.
    destruct (filter (λ b, b = false) bs); [by inv Hin|simpl in *; lia].
  - intros Hall. by rewrite filter_all by by apply Forall_forall.
Qed.

End CheckFeatureGroup.

(** The check counts every card number it looks up, as found or as not
    found, and its assertion [success == N] holds exactly when [N] of them
    were found; when [N] card numbers were drawn, that is when every one of
    them was found with status 200 and a record. *)
Theorem check_feature_group_outcome
    (get_record : nat → string → string → GetRecordResponse)
    (cc_nums : list Z) :
  let '(success, fail, r) := check_feature_group get_record cc_nums in
  success + fail = Z.of_nat (length cc_nums)
  ∧ 0 ≤ success ∧ 0 ≤ fail
  ∧ (r = Return () ↔ success = N_records)
  ∧ (Z.of_nat (length cc_nums) = N_records →
     (r = Return () ↔
      ∀ n cc_num, cc_nums !! n = Some cc_num →
        found (get_record n FEATURE_GROUP (pretty cc_num)) = true)).
Proof.
  unfold check_feature_group. rewrite check_loop. simpl.
  rewrite !Z.add_0_l.
  pose proof (true_and_false (lookups get_record 0 cc_nums)) as Hsum.
  assert (Hlen : length (lookups get_record 0 cc_nums) = length cc_nums).
  { unfold lookups. by rewrite length_imap. }
  assert (Hassert : ∀ s : Z,
    (if s =? N_records then Return () else Raise AssertionError) = Return ()
    ↔ s = N_records).
  { intros s. by destruct (Z.eqb_spec s N_records). }
  split_and!; [lia|lia|lia|apply Hassert|].
  intros HN. rewrite Hassert.
  assert (Hall : Z.of_nat (length (filter (λ b, b = true)
                                     (lookups get_record 0 cc_nums)))
                 = N_records
                 ↔ Forall (λ b, b = true) (lookups get_record 0 cc_nums)).
  { rewrite <-all_true. lia. }
  rewrite Hall, Forall_lookup. unfold lookups. split.
  - intros Hfound n cc Hn.
    apply (Hfound n). by rewrite list_lookup_imap, Hn.
  - intros Hfound n b. rewrite list_lookup_imap.
    destruct (cc_nums !! n) as [cc|] eqn:Hn; [|done].
    intros [= <-]. by apply Hfound.
Qed.

(** ** The split into training and test rows *)

Lemma ascii_compare_refl (a : Ascii.ascii) : Ascii.compare a a = Eq.
Proof. apply N.compare_refl. Qed.

Lemma ascii_compare_lt_trans (a b c : Ascii.ascii) :
  Ascii.compare a b = Lt → Ascii.compare b c = Lt → Ascii.compare a c = Lt.
Proof.
  unfold Ascii.compare. rewrite !N.compare_lt_iff. apply N.lt_trans.
Qed.

Lemma string_compare_lt_trans (s1 s2 s3 : string) :
  String.compare s1 s2 = Lt → String.compare s2 s3 = Lt →
  String.compare s1 s3 = Lt.
Proof.
  revert s2 s3. induction s1 as [|a s1 IH]; intros [|b s2] [|c s3]; simpl;
    try done.
  destruct (Ascii.compare a b) eqn:Hab; try done;
    destruct (Ascii.compare b c) eqn:Hbc; try done.
  - apply Ascii.compare_eq_iff in Hab as ->.
    apply Ascii.compare_eq_iff in Hbc as ->.
    rewrite ascii_compare_refl. apply IH.
  - apply Ascii.compare_eq_iff in Hab as ->. by rewrite Hbc.
  - apply Ascii.compare_eq_iff in Hbc as <-. by rewrite Hab.
  - by rewrite (ascii_compare_lt_trans a b c).
Qed.

Lemma string_ltb_leb_trans (s1 s2 s3 : string) :
  String.ltb s1 s2 = true → String.leb s2 s3 = true →
  String.ltb s1 s3 = true.
Proof.
  unfold String.ltb, String.leb.
  destruct (String.compare s1 s2) eqn:H12; try done.
  destruct (String.compare s2 s3) eqn:H23; try done.
  - apply String.compare_eq_iff in H23 as <-. by rewrite H12.
  - by rewrite (string_compare_lt_trans s1 s2 s3).
Qed.

Lemma string_ltb_leb_apart (s1 s2 : string) :
  String.ltb s1 s2 = true → String.leb s2 s1 = true → False.
Proof.
  unfold String.ltb, String.leb. rewrite (String.compare_antisym s1 s2).
  by destruct (String.compare s2 s1).
Qed.

Lemma string_ltb_or_leb (s1 s2 : string) :
  String.ltb s1 s2 = true ∨ String.leb s2 s1 = true.
Proof.
  unfold String.ltb, String.leb. rewrite (String.compare_antisym s1 s2).
  destruct (String.compare s2 s1); simpl; auto.
Qed.

Lemma filter_apart {A} (P Q : A → Prop)
    `{!∀ x, Decision (P x), !∀ x, Decision (Q x)} (l : list A) :
  (∀ x, P x → Q x → False) →
  filter P l ++ filter Q l ≡ₚ filter (λ x, P x ∨ Q x) l.
Proof.
  intros Hapart. induction l as [|x l IH]; [done|]. rewrite !filter_cons.
  destruct (decide (P x)) as [HP|HP], (decide (Q x)) as [HQ|HQ].
  - destruct (Hapart x HP HQ).
  - rewrite decide_True by by left. simpl. by rewrite IH.
  - rewrite decide_True by by right. by rewrite <-Permutation_middle, IH.
  - rewrite decide_False by by intros [?|?]. done.
Qed.

Section SplitProperties.
Context {Row : Type} (datetime_of : Row → string).

(** No row is both a training and a test row; together the two are the
    rows whose [datetime] is after [training_start], each as often as the
    DataFrame has it; and every training row is earlier than every test
    row. *)
Theorem training_and_test_rows_are_apart (df : list Row) :
  training_df datetime_of df ++ test_df datetime_of df
  ≡ₚ filter (λ r, String.ltb training_start (datetime_of r)) df
  ∧ (∀ r, r ∈ training_df datetime_of df → r ∈ test_df datetime_of df →
          False)
  ∧ (∀ r r', r ∈ training_df datetime_of df → r' ∈ test_df datetime_of df →
             String.ltb (datetime_of r) (datetime_of r') = true).
Proof.
  unfold training_df, test_df. split_and!.
  - rewrite filter_apart.
    + apply eq_subrelation; [tc_solve|]. apply list_filter_iff. intros r.
      rewrite !Is_true_true, andb_true_iff. split.
      * intros [[? _]|Hend]; [done|].
        by apply (string_ltb_leb_trans _ training_end).
      * intros Hstart.
        destruct (string_ltb_or_leb (datetime_of r) training_end); auto.
    + intros r [_ Hlt]%Is_true_true%andb_true_iff Hle%Is_true_true.
      by destruct (string_ltb_leb_apart _ _ Hlt Hle).
  - intros r [[_ Hlt]%Is_true_true%andb_true_iff _]%list_elem_of_filter
             [Hle%Is_true_true _]%list_elem_of_filter.
    by destruct (string_ltb_leb_apart _ _ Hlt Hle).
  - intros r r' [[_ Hlt]%Is_true_true%andb_true_iff _]%list_elem_of_filter
                [Hle%Is_true_true _]%list_elem_of_filter.
    by apply (string_ltb_leb_trans _ training_end).
Qed.

End SplitProperties.
